(** * OLSR simulation: a shallow embedding of the link oracle and the node engine

    The Go sources ([link.go], [node.go], [message.go], [controller.go]) are
    embedded function by function.  Go maps are modelled as stdpp [gmap]s;
    where the Go code ranges over a map and the result depends on the
    iteration order, the order is an explicit argument [ord] that must be a
    permutation of [map_to_list] (Go fixes no order). *)

From Stdlib Require Import ZArith Lia Sorting.Sorted Ascii String.
From stdpp Require Import base gmap sets list strings.

Open Scope Z_scope.

(** Go [int] is 64 bits wide; additions wrap around. *)
Definition int_min : Z := - 2 ^ 63.
Definition int_max : Z := 2 ^ 63 - 1.
Definition wrap64 (z : Z) : Z := (z + 2 ^ 63) mod 2 ^ 64 - 2 ^ 63.
Definition add64 (a b : Z) : Z := wrap64 (a + b).

(** [type NodeID uint]: only compared and used as a key. *)
Abbreviation NodeID := nat (only parsing).

(* ------------------------------------------------------------------ *)
(** ** link.go: link states, links and the topology oracle *)

Inductive LinkStatus := UP | DOWN.

Definition LinkStatus_eqb (a b : LinkStatus) : bool :=
  match a, b with UP, UP | DOWN, DOWN => true | _, _ => false end.

Record LinkState := mkLinkState {
  time : Z;
  status : LinkStatus;
  fromNode : NodeID;
  toNode : NodeID
}.

Record Link := mkLink {
  link_fromNode : NodeID;
  link_toNode : NodeID;
  states : list LinkState
}.

(** The loop of [Link.isUp]: [up] is the loop variable. *)
Fixpoint isUp_loop (t : Z) (sts : list LinkState) (up : bool) : bool :=
  match sts with
  | [] => up
  | st :: rest =>
      if (t >=? time st) && LinkStatus_eqb (status st) UP then isUp_loop t rest true
      else if (t >=? time st) && LinkStatus_eqb (status st) DOWN then isUp_loop t rest false
      else isUp_loop t rest up
  end.

(** [func (l *Link) isUp(time int) bool] *)
Definition isUp (l : Link) (t : Z) : bool := isUp_loop t (states l) false.

Record QueryMsg := mkQueryMsg {
  q_fromNode : NodeID;
  q_toNode : NodeID;
  timeQuantum : Z
}.

(** [NetworkTypology.links : map[NodeID]map[NodeID]Link] *)
Record NetworkTypology := mkNetworkTypology {
  links : gmap NodeID (gmap NodeID Link)
}.

(** [func (n *NetworkTypology) Query(msg QueryMsg) bool] *)
Definition Query (n : NetworkTypology) (msg : QueryMsg) : bool :=
  match links n !! q_fromNode msg with
  | None => false
  | Some ls =>
      match ls !! q_toNode msg with
      | None => false
      | Some link => isUp link (timeQuantum msg)
      end
  end.

(** The spec's reading of a link: the most recent state record whose tick
    is at most [t] (the last such record of the time-sorted list). *)
Definition most_recent (t : Z) (sts : list LinkState) : option LinkState :=
  last (filter (fun st => time st <= t) sts).

Definition ticks_sorted (sts : list LinkState) : Prop :=
  Sorted (fun a b => time a <= time b) sts.

(* ------------------------------------------------------------------ *)
(** ** message.go *)

Record HelloMessage := mkHello {
  h_src : NodeID;
  unidir : list NodeID;
  bidir : list NodeID;
  mpr : list NodeID;
  h_seq : Z
}.

Record DataMessage := mkData {
  d_src : NodeID;
  d_dst : NodeID;
  nxtHop : NodeID;
  d_fromnbr : NodeID;
  data : string
}.

Record TCMessage := mkTC {
  tc_src : NodeID;
  tc_fromnbr : NodeID;
  tc_seq : Z;
  ms : list NodeID
}.

(** The [interface{}] values carried by the channels. *)
Inductive Message :=
  | MHello (m : HelloMessage)
  | MData (m : DataMessage)
  | MTC (m : TCMessage).

(* ------------------------------------------------------------------ *)
(** ** node.go: tables *)

Record TopologyEntry := mkTopologyEntry {
  t_dst : NodeID;
  originator : NodeID;
  t_holdUntil : Z;
  seq : Z
}.

Record RoutingEntry := mkRoutingEntry {
  r_dst : NodeID;
  nextHop : NodeID;
  distance : Z
}.

(** [Bidirectional NeighborState = iota]: [Bidirectional] is the zero value. *)
Inductive NeighborState := Bidirectional | Unidirectional | MPR.

Definition NeighborState_eqb (a b : NeighborState) : bool :=
  match a, b with
  | Bidirectional, Bidirectional | Unidirectional, Unidirectional | MPR, MPR => true
  | _, _ => false
  end.

Record OneHopNeighborEntry := mkOneHop {
  neighborID : NodeID;
  state : NeighborState;
  holdUntil : Z
}.

(** The zero value of [OneHopNeighborEntry], returned by a Go map lookup of
    an absent key. *)
Definition zeroOneHop : OneHopNeighborEntry := mkOneHop 0 Bidirectional 0.

Record NodeMsg := mkNodeMsg {
  msg : string;
  delay : Z;
  n_dst : NodeID;
  sent : bool
}.

(** [type Node struct]: the channel [output] is the list of messages written
    to it so far (oldest first); the three log files are the lists of lines
    appended to them (a message line is its canonical string form, so it is
    kept as the message).  [twoHopNeighbors]' inner maps map each id to
    itself and are kept as sets. *)
Record Node := mkNode {
  n_id : NodeID;
  outputLog : list Message;
  inputLog : list Message;
  receivedLog : list string;
  output : list Message;
  nodeMsg : NodeMsg;
  routingTable : gmap NodeID RoutingEntry;
  routesChanged : bool;
  topologyTable : gmap NodeID (gmap NodeID TopologyEntry);
  topologyHoldTime : Z;
  tcSequenceNum : Z;
  oneHopNeighbors : gmap NodeID OneHopNeighborEntry;
  twoHopNeighbors : gmap NodeID (gset NodeID);
  msSet : gmap NodeID NodeID;
  currentTick : Z;
  neighborHoldTime : Z;
  helloSequences : gmap NodeID Z;
  helloSequenceNum : Z
}.

(** Field assignments [n.f = v]. *)
Definition set_outputLog n v := mkNode (n_id n) v (inputLog n) (receivedLog n) (output n) (nodeMsg n) (routingTable n) (routesChanged n) (topologyTable n) (topologyHoldTime n) (tcSequenceNum n) (oneHopNeighbors n) (twoHopNeighbors n) (msSet n) (currentTick n) (neighborHoldTime n) (helloSequences n) (helloSequenceNum n).
Definition set_inputLog n v := mkNode (n_id n) (outputLog n) v (receivedLog n) (output n) (nodeMsg n) (routingTable n) (routesChanged n) (topologyTable n) (topologyHoldTime n) (tcSequenceNum n) (oneHopNeighbors n) (twoHopNeighbors n) (msSet n) (currentTick n) (neighborHoldTime n) (helloSequences n) (helloSequenceNum n).
Definition set_receivedLog n v := mkNode (n_id n) (outputLog n) (inputLog n) v (output n) (nodeMsg n) (routingTable n) (routesChanged n) (topologyTable n) (topologyHoldTime n) (tcSequenceNum n) (oneHopNeighbors n) (twoHopNeighbors n) (msSet n) (currentTick n) (neighborHoldTime n) (helloSequences n) (helloSequenceNum n).
Definition set_output n v := mkNode (n_id n) (outputLog n) (inputLog n) (receivedLog n) v (nodeMsg n) (routingTable n) (routesChanged n) (topologyTable n) (topologyHoldTime n) (tcSequenceNum n) (oneHopNeighbors n) (twoHopNeighbors n) (msSet n) (currentTick n) (neighborHoldTime n) (helloSequences n) (helloSequenceNum n).
Definition set_nodeMsg n v := mkNode (n_id n) (outputLog n) (inputLog n) (receivedLog n) (output n) v (routingTable n) (routesChanged n) (topologyTable n) (topologyHoldTime n) (tcSequenceNum n) (oneHopNeighbors n) (twoHopNeighbors n) (msSet n) (currentTick n) (neighborHoldTime n) (helloSequences n) (helloSequenceNum n).
Definition set_routingTable n v := mkNode (n_id n) (outputLog n) (inputLog n) (receivedLog n) (output n) (nodeMsg n) v (routesChanged n) (topologyTable n) (topologyHoldTime n) (tcSequenceNum n) (oneHopNeighbors n) (twoHopNeighbors n) (msSet n) (currentTick n) (neighborHoldTime n) (helloSequences n) (helloSequenceNum n).
Definition set_routesChanged n v := mkNode (n_id n) (outputLog n) (inputLog n) (receivedLog n) (output n) (nodeMsg n) (routingTable n) v (topologyTable n) (topologyHoldTime n) (tcSequenceNum n) (oneHopNeighbors n) (twoHopNeighbors n) (msSet n) (currentTick n) (neighborHoldTime n) (helloSequences n) (helloSequenceNum n).
Definition set_topologyTable n v := mkNode (n_id n) (outputLog n) (inputLog n) (receivedLog n) (output n) (nodeMsg n) (routingTable n) (routesChanged n) v (topologyHoldTime n) (tcSequenceNum n) (oneHopNeighbors n) (twoHopNeighbors n) (msSet n) (currentTick n) (neighborHoldTime n) (helloSequences n) (helloSequenceNum n).
Definition set_tcSequenceNum n v := mkNode (n_id n) (outputLog n) (inputLog n) (receivedLog n) (output n) (nodeMsg n) (routingTable n) (routesChanged n) (topologyTable n) (topologyHoldTime n) v (oneHopNeighbors n) (twoHopNeighbors n) (msSet n) (currentTick n) (neighborHoldTime n) (helloSequences n) (helloSequenceNum n).
Definition set_oneHopNeighbors n v := mkNode (n_id n) (outputLog n) (inputLog n) (receivedLog n) (output n) (nodeMsg n) (routingTable n) (routesChanged n) (topologyTable n) (topologyHoldTime n) (tcSequenceNum n) v (twoHopNeighbors n) (msSet n) (currentTick n) (neighborHoldTime n) (helloSequences n) (helloSequenceNum n).
Definition set_twoHopNeighbors n v := mkNode (n_id n) (outputLog n) (inputLog n) (receivedLog n) (output n) (nodeMsg n) (routingTable n) (routesChanged n) (topologyTable n) (topologyHoldTime n) (tcSequenceNum n) (oneHopNeighbors n) v (msSet n) (currentTick n) (neighborHoldTime n) (helloSequences n) (helloSequenceNum n).
Definition set_msSet n v := mkNode (n_id n) (outputLog n) (inputLog n) (receivedLog n) (output n) (nodeMsg n) (routingTable n) (routesChanged n) (topologyTable n) (topologyHoldTime n) (tcSequenceNum n) (oneHopNeighbors n) (twoHopNeighbors n) v (currentTick n) (neighborHoldTime n) (helloSequences n) (helloSequenceNum n).
Definition set_currentTick n v := mkNode (n_id n) (outputLog n) (inputLog n) (receivedLog n) (output n) (nodeMsg n) (routingTable n) (routesChanged n) (topologyTable n) (topologyHoldTime n) (tcSequenceNum n) (oneHopNeighbors n) (twoHopNeighbors n) (msSet n) v (neighborHoldTime n) (helloSequences n) (helloSequenceNum n).
Definition set_helloSequences n v := mkNode (n_id n) (outputLog n) (inputLog n) (receivedLog n) (output n) (nodeMsg n) (routingTable n) (routesChanged n) (topologyTable n) (topologyHoldTime n) (tcSequenceNum n) (oneHopNeighbors n) (twoHopNeighbors n) (msSet n) (currentTick n) (neighborHoldTime n) v (helloSequenceNum n).
Definition set_helloSequenceNum n v := mkNode (n_id n) (outputLog n) (inputLog n) (receivedLog n) (output n) (nodeMsg n) (routingTable n) (routesChanged n) (topologyTable n) (topologyHoldTime n) (tcSequenceNum n) (oneHopNeighbors n) (twoHopNeighbors n) (msSet n) (currentTick n) (neighborHoldTime n) (helloSequences n) v.

(** [n.output <- m]: a write on the shared transmitter channel. *)
Definition emit (n : Node) (m : Message) : Node := set_output n (output n ++ [m]).
(** [fmt.Fprintln(n.outputLog, m)] and [fmt.Fprintln(n.inputLog, m)]. *)
Definition log_output (n : Node) (m : Message) : Node := set_outputLog n (outputLog n ++ [m]).
Definition log_input (n : Node) (m : Message) : Node := set_inputLog n (inputLog n ++ [m]).

(** [sort.SliceStable(xs, less)]: stable insertion sort; [x] is placed after
    the elements that are strictly [less] than it and before the others.  *)
Fixpoint insert_stable {A} (less : A -> A -> bool) (x : A) (l : list A) : list A :=
  match l with
  | [] => [x]
  | y :: r => if less y x then y :: insert_stable less x r else x :: l
  end.

Definition sort_stable {A} (less : A -> A -> bool) (l : list A) : list A :=
  foldr (insert_stable less) [] l.

(* ------------------------------------------------------------------ *)
(** ** node.go: handlers *)

(** [func updateOneHopNeighbors(msg, oneHopNeighbors, holdUntil, id)] *)
Definition updateOneHopNeighbors (m : HelloMessage)
    (oneHop : gmap NodeID OneHopNeighborEntry) (hold : Z) (self : NodeID)
    : gmap NodeID OneHopNeighborEntry :=
  match oneHop !! h_src m with
  | None => <[h_src m := mkOneHop (h_src m) Unidirectional hold]> oneHop
  | Some entry =>
      let included := existsb (fun x => Nat.eqb x self) (unidir m ++ (bidir m ++ mpr m)) in
      <[h_src m := mkOneHop (neighborID entry)
                     (if included then Bidirectional else Unidirectional) hold]> oneHop
  end.

(** [func updateTwoHopNeighbors(msg, twoHopNeighbors, id)] *)
Definition updateTwoHopNeighbors (m : HelloMessage)
    (twoHop : gmap NodeID (gset NodeID)) (self : NodeID) : gmap NodeID (gset NodeID) :=
  <[h_src m := list_to_set (filter (fun x => x <> self) (bidir m ++ mpr m))]> twoHop.

(** A candidate of [calculateMPRs]: [struct { id NodeID; reaches int }]. *)
Record Cand := mkCand { c_id : NodeID; reaches : nat }.

(** First loop of [calculateMPRs], over [range twoHopNeighbors] in the
    iteration order [ord]: the candidate list and [remainingTwoHops].  The
    lookup [ohn, _ := oneHopNeighbors[neighbor]] yields the zero value
    (state [Bidirectional]) for an absent key. *)
Definition mpr_cand_step (oneHop : gmap NodeID OneHopNeighborEntry)
    (acc : list Cand * gset NodeID) (kv : NodeID * gset NodeID) : list Cand * gset NodeID :=
  let '(nodes, remaining) := acc in
  let '(neighbor, twoHops) := kv in
  let ohn := default zeroOneHop (oneHop !! neighbor) in
  if NeighborState_eqb (state ohn) Unidirectional then acc
  else (nodes ++ [mkCand neighbor (size twoHops)], twoHops ∪ remaining).

Definition mpr_candidates (ord : list (NodeID * gset NodeID))
    (oneHop : gmap NodeID OneHopNeighborEntry) : list Cand * gset NodeID :=
  fold_left (mpr_cand_step oneHop) ord ([], ∅).

(** [sort.SliceStable(nodes, func(i, j) bool { return nodes[i].reaches > nodes[j].reaches })] *)
Definition sort_by_reaches (nodes : list Cand) : list Cand :=
  sort_stable (fun a b => Nat.ltb (reaches b) (reaches a)) nodes.

(** The greedy loop [for len(remainingTwoHops) > 0 { maxTwoHops := nodes[0]; ... }].
    [None] is the run-time panic of [nodes[0]] on an empty slice.  The result
    is the MPR set and the candidates not popped. *)
Fixpoint mpr_loop (twoHop : gmap NodeID (gset NodeID)) (remaining : gset NodeID)
    (nodes : list Cand) (mprs : gset NodeID) : option (gset NodeID * list Cand) :=
  if decide (remaining = ∅) then Some (mprs, nodes)
  else match nodes with
       | [] => None
       | maxTwoHops :: rest =>
           mpr_loop twoHop (remaining ∖ default ∅ (twoHop !! c_id maxTwoHops)) rest
             ({[c_id maxTwoHops]} ∪ mprs)
       end.

(** Last loop of [calculateMPRs]: the new state of each one-hop neighbor. *)
Definition mpr_update (mprs : gset NodeID) (k : NodeID) (neigh : OneHopNeighborEntry)
    : OneHopNeighborEntry :=
  if decide (k ∈ mprs) then mkOneHop (neighborID neigh) MPR (holdUntil neigh)
  else if NeighborState_eqb (state neigh) MPR
       then mkOneHop (neighborID neigh) Bidirectional (holdUntil neigh)
       else neigh.

(** [func calculateMPRs(oneHopNeighbors, twoHopNeighbors)], the map
    [twoHopNeighbors] being ranged over in the order [ord]. *)
Definition calculateMPRs_ord (ord : list (NodeID * gset NodeID))
    (oneHop : gmap NodeID OneHopNeighborEntry) (twoHop : gmap NodeID (gset NodeID))
    : option (gmap NodeID OneHopNeighborEntry) :=
  let '(nodes, remaining) := mpr_candidates ord oneHop in
  match mpr_loop twoHop remaining (sort_by_reaches nodes) ∅ with
  | None => None
  | Some (mprs, _) => Some (map_imap (fun k neigh => Some (mpr_update mprs k neigh)) oneHop)
  end.

(** With the iteration order of [map_to_list]. *)
Definition calculateMPRs oneHop twoHop := calculateMPRs_ord (map_to_list twoHop) oneHop twoHop.

(** The two-hop table [handleHello] passes to [calculateMPRs]. *)
Definition hello_twoHop (n : Node) (m : HelloMessage) : gmap NodeID (gset NodeID) :=
  updateTwoHopNeighbors m (twoHopNeighbors n) (n_id n).

(** [func (n *Node) handleHello(msg *HelloMessage)], after the out-of-order filter. *)
Definition handleHello_update (ord : list (NodeID * gset NodeID)) (n : Node)
    (m : HelloMessage) : option Node :=
  let src := h_src m in
  let oh1 := updateOneHopNeighbors m (oneHopNeighbors n)
               (add64 (currentTick n) (neighborHoldTime n)) (n_id n) in
  let th1 := hello_twoHop n m in
  match calculateMPRs_ord ord oh1 th1 with
  | None => None
  | Some oh2 =>
      let was := bool_decide (is_Some (msSet n !! src)) in
      let isMS := existsb (fun x => Nat.eqb x (n_id n)) (mpr m) in
      let ms1 := if was && negb isMS then delete src (msSet n) else msSet n in
      let ms2 := if negb was && isMS then <[src := src]> ms1 else ms1 in
      Some (set_routesChanged
              (set_msSet (set_twoHopNeighbors (set_oneHopNeighbors n oh2) th1) ms2) true)
  end.

Definition handleHello_ord (ord : list (NodeID * gset NodeID)) (n : Node)
    (m : HelloMessage) : option Node :=
  match helloSequences n !! h_src m with
  | None =>
      handleHello_update ord (set_helloSequences n (<[h_src m := h_seq m]> (helloSequences n))) m
  | Some s =>
      if h_seq m <=? s then Some n
      else handleHello_update ord
             (set_helloSequences n (<[h_src m := h_seq m]> (helloSequences n))) m
  end.

(** [func updateTopologyTable(msg, topologyTable, holdUntil, id)] *)
Definition tc_stale (m : TCMessage) (tt : gmap NodeID (gmap NodeID TopologyEntry)) : bool :=
  match tt !! tc_src m with
  | None => false
  | Some entries =>
      existsb (fun d => match entries !! d with
                        | Some entry => tc_seq m <? seq entry
                        | None => false
                        end) (ms m)
  end.

Definition tc_entries (m : TCMessage) (hold : Z) (self : NodeID) : gmap NodeID TopologyEntry :=
  fold_left (fun entries d =>
      if Nat.eqb d self then entries
      else <[d := mkTopologyEntry d (tc_src m) hold (tc_seq m)]> entries) (ms m) ∅.

Definition updateTopologyTable (m : TCMessage) (tt : gmap NodeID (gmap NodeID TopologyEntry))
    (hold : Z) (self : NodeID) : gmap NodeID (gmap NodeID TopologyEntry) :=
  if tc_stale m tt then tt else <[tc_src m := tc_entries m hold self]> tt.

(** [func (n *Node) handleTC(msg *TCMessage)]; the forwarding test ranges over
    the values of [msSet]. *)
Definition tc_doFwd (n : Node) (m : TCMessage) : bool :=
  existsb (fun kv => Nat.eqb kv.2 (tc_fromnbr m)) (map_to_list (msSet n)).

Definition handleTC (n : Node) (m : TCMessage) : Node :=
  if Nat.eqb (tc_src m) (n_id n) then n
  else
    let n1 := set_routesChanged
                (set_topologyTable n (updateTopologyTable m (topologyTable n)
                   (add64 (currentTick n) (topologyHoldTime n)) (n_id n))) true in
    if tc_doFwd n1 m then
      let fwd := MTC (mkTC (tc_src m) (n_id n) (tc_seq m) (ms m)) in
      log_output (emit n1 fwd) fwd
    else n1.

(** [func (n *Node) sendData(msg *DataMessage) bool] *)
Definition sendData (n : Node) (m : DataMessage) : Node * bool :=
  match routingTable n !! d_dst m with
  | Some route =>
      let m' := MData (mkData (d_src m) (d_dst m) (nextHop route) (n_id n) (data m)) in
      (log_input (emit n m') m', true)
  | None => (n, false)
  end.

(** [func (n *Node) handleData(msg *DataMessage)] *)
Definition handleData (n : Node) (m : DataMessage) : Node :=
  if Nat.eqb (d_dst m) (n_id n) then set_receivedLog n (receivedLog n ++ [data m])
  else fst (sendData n m).

(** The loop of [sendHello] over [range n.oneHopNeighbors] in the order [ord]:
    the lists (Unidirectional, Bidirectional, MPR). *)
Definition hello_buckets (ord : list (NodeID * OneHopNeighborEntry))
    : list NodeID * list NodeID * list NodeID :=
  fold_left (fun acc kv =>
      let '(uni, bi, mp) := acc in
      let o := kv.2 in
      match state o with
      | Unidirectional => (uni ++ [neighborID o], bi, mp)
      | Bidirectional => (uni, bi ++ [neighborID o], mp)
      | MPR => (uni, bi, mp ++ [neighborID o])
      end) ord ([], [], []).

Definition helloMessage_ord (ord : list (NodeID * OneHopNeighborEntry)) (n : Node) : HelloMessage :=
  let '(uni, bi, mp) := hello_buckets ord in
  mkHello (n_id n) uni bi mp (helloSequenceNum n).

(** [func (n *Node) sendHello()] *)
Definition sendHello_ord (ord : list (NodeID * OneHopNeighborEntry)) (n : Node) : Node :=
  let hello := MHello (helloMessage_ord ord n) in
  log_output (emit (set_helloSequenceNum n (add64 (helloSequenceNum n) 1)) hello) hello.

(** [func (n *Node) sendTC()]: the values of [msSet], sorted ascending. *)
Definition sendTC (n : Node) : Node :=
  let ids := sort_stable Nat.ltb (map snd (map_to_list (msSet n))) in
  let tc := MTC (mkTC (n_id n) (n_id n) (tcSequenceNum n) ids) in
  set_tcSequenceNum (log_output (emit n tc) tc) (add64 (tcSequenceNum n) 1).

(** [func (n *Node) calculateRoutingTable()].  [ord1] and [ord2] are the
    iteration orders of [oneHopNeighbors] and [twoHopNeighbors]; [tord h] is
    the order in which the entries of [topologyTable] are visited in the pass
    for hop count [h]. *)
Definition routes_oneHop (ord1 : list (NodeID * OneHopNeighborEntry))
    : gmap NodeID RoutingEntry :=
  fold_left (fun rt kv =>
      let neighbor := kv.2 in
      if NeighborState_eqb (state neighbor) Bidirectional || NeighborState_eqb (state neighbor) MPR
      then <[neighborID neighbor := mkRoutingEntry (neighborID neighbor) (neighborID neighbor) 1]> rt
      else rt) ord1 ∅.

Definition routes_twoHop (ord2 : list (NodeID * gset NodeID)) (rt0 : gmap NodeID RoutingEntry)
    : gmap NodeID RoutingEntry :=
  fold_left (fun rt kv =>
      let '(neighbor, reachableTwoHops) := kv in
      fold_left (fun rt d =>
          match rt !! d with
          | Some _ => rt
          | None => <[d := mkRoutingEntry d neighbor 2]> rt
          end) (elements reachableTwoHops) rt) ord2 rt0.

(** One pass of the hop-count loop: the table and [newEntry]. *)
Definition routes_pass (entries : list TopologyEntry) (h : Z) (rt0 : gmap NodeID RoutingEntry)
    : gmap NodeID RoutingEntry * bool :=
  fold_left (fun acc entry =>
      let '(rt, newEntry) := acc in
      match rt !! t_dst entry with
      | Some _ => acc
      | None =>
          match rt !! originator entry with
          | Some rEntry =>
              if Z.eqb (distance rEntry) h
              then (<[t_dst entry := mkRoutingEntry (t_dst entry) (nextHop rEntry) (h + 1)]> rt, true)
              else acc
          | None => acc
          end
      end) entries (rt0, false).

(** [for h := 2; h < 256; h++ { ...; if !newEntry { break } }]: [fuel] passes
    remain, starting at hop count [h]. *)
Fixpoint routes_topology (tord : Z -> list TopologyEntry) (fuel : nat) (h : Z)
    (rt : gmap NodeID RoutingEntry) : gmap NodeID RoutingEntry :=
  match fuel with
  | O => rt
  | S f =>
      let '(rt', newEntry) := routes_pass (tord h) h rt in
      if newEntry then routes_topology tord f (h + 1) rt' else rt'
  end.

Definition calculateRoutingTable_ord (ord1 : list (NodeID * OneHopNeighborEntry))
    (ord2 : list (NodeID * gset NodeID)) (tord : Z -> list TopologyEntry) (n : Node) : Node :=
  set_routingTable n (routes_topology tord 254 2 (routes_twoHop ord2 (routes_oneHop ord1))).

(** All entries of a topology table, originator by originator. *)
Definition topology_entries (tt : gmap NodeID (gmap NodeID TopologyEntry)) : list TopologyEntry :=
  concat (map (fun kv => map snd (map_to_list kv.2)) (map_to_list tt)).

(** The two expiry loops of [run]. *)
Definition expire (n : Node) : Node :=
  let t := currentTick n in
  let oh := oneHopNeighbors n in
  let expired k := match oh !! k with Some e => holdUntil e <=? t | None => false end in
  set_topologyTable
    (set_twoHopNeighbors
       (set_oneHopNeighbors n (filter (fun kv => ~ (holdUntil kv.2 <= t)) oh))
       (filter (fun kv => expired kv.1 = false) (twoHopNeighbors n)))
    ((fun dst => filter (fun kv => ~ (t_holdUntil kv.2 <= t)) dst) <$> topologyTable n).

(** The scheduled DATA origination of [run]. *)
Definition originate (n : Node) : Node :=
  let nm := nodeMsg n in
  let m := mkData (n_id n) (n_dst nm) 0 0 (msg nm) in
  let '(n', ok) := sendData n m in
  if ok then set_nodeMsg n' (mkNodeMsg (msg nm) (delay nm) (n_dst nm) true)
  else set_nodeMsg n' (mkNodeMsg (msg nm) (add64 (delay nm) 30) (n_dst nm) (sent nm)).

(** [func NewNode(...)], with [run]'s [n.currentTick = 0]. *)
Definition NewNode (self : NodeID) (nm : NodeMsg) : Node :=
  mkNode self [] [] [] [] nm ∅ true ∅ 30 0 ∅ ∅ ∅ 0 15 ∅ 0.

(** The node's steps: each tick of [run] is a sequence of them (a message
    received and logged to the in log, then dispatched; a HELLO; a TC when
    [msSet] is non-empty; the DATA origination when due; the expiry sweep; the
    routing rebuild when [routesChanged]; the tick increment).  A received
    HELLO never carries the node's own id as its source: the Controller
    delivers a HELLO only to the nodes whose id differs from its source. *)
Inductive step : Node -> Node -> Prop :=
  | step_recv_hello n m ord n' :
      h_src m <> n_id n ->
      ord ≡ₚ map_to_list (hello_twoHop n m) ->
      handleHello_ord ord (log_input n (MHello m)) m = Some n' ->
      step n n'
  | step_recv_tc n m : step n (handleTC (log_input n (MTC m)) m)
  | step_recv_data n m : step n (handleData (log_input n (MData m)) m)
  | step_hello n ord :
      ord ≡ₚ map_to_list (oneHopNeighbors n) -> step n (sendHello_ord ord n)
  | step_tc n : msSet n <> ∅ -> step n (sendTC n)
  | step_originate n :
      currentTick n = delay (nodeMsg n) -> sent (nodeMsg n) = false -> step n (originate n)
  | step_expire n : step n (expire n)
  | step_routes n ord1 ord2 tord :
      routesChanged n = true ->
      ord1 ≡ₚ map_to_list (oneHopNeighbors n) ->
      ord2 ≡ₚ map_to_list (twoHopNeighbors n) ->
      (forall h, tord h ≡ₚ topology_entries (topologyTable n)) ->
      step n (set_routesChanged (calculateRoutingTable_ord ord1 ord2 tord n) false)
  | step_tick n : step n (set_currentTick n (add64 (currentTick n) 1)).

Inductive reachable (self : NodeID) (nm : NodeMsg) : Node -> Prop :=
  | reach_init : reachable self nm (NewNode self nm)
  | reach_step n n' : reachable self nm n -> step n n' -> reachable self nm n'.

(* ------------------------------------------------------------------ *)
(** ** link.go: reading a topology file *)

(** [bufio.Reader.ReadString('\n')] until [io.EOF], each line with its
    newline removed by [strings.TrimSuffix]: the newline-terminated lines, and
    the text after the last newline (returned together with [io.EOF]). *)
Fixpoint read_lines (s : string) : list string * string :=
  match s with
  | EmptyString => ([], EmptyString)
  | String c r =>
      let '(ls, rest) := read_lines r in
      if Ascii.eqb c "010"%char then (EmptyString :: ls, rest)
      else match ls with
           | [] => ([], String c rest)
           | l :: ls' => (String c l :: ls', rest)
           end
  end.

(** [strings.Split(s, " ")] *)
Fixpoint split_sp (s : string) : list string :=
  match s with
  | EmptyString => [EmptyString]
  | String c r =>
      let parts := split_sp r in
      if Ascii.eqb c " "%char then EmptyString :: parts
      else match parts with
           | p :: ps => String c p :: ps
           | [] => [String c EmptyString]
           end
  end.

Definition digit_val (c : Ascii.ascii) : option Z :=
  let k := Ascii.nat_of_ascii c in
  if (48 <=? k)%nat && (k <=? 57)%nat then Some (Z.of_nat k - 48) else None.

Fixpoint digits_val (s : string) (acc : Z) : option Z :=
  match s with
  | EmptyString => Some acc
  | String c r =>
      match digit_val c with
      | Some d => digits_val r (acc * 10 + d)
      | None => None
      end
  end.

(** [strconv.Atoi] on a 64-bit platform: an optional sign, at least one
    decimal digit, and a value in range. *)
Definition Atoi (s : string) : option Z :=
  let '(neg, body) :=
    match s with
    | String "-"%char r => (true, r)
    | String "+"%char r => (false, r)
    | _ => (false, s)
    end in
  match body with
  | EmptyString => None
  | _ =>
      match digits_val body 0 with
      | Some v =>
          let z := if neg then - v else v in
          if (int_min <=? z) && (z <=? int_max) then Some z else None
      | None => None
      end
  end.

(** [regexp.MustCompile(`^\d$`).Match]: exactly one ASCII digit. *)
Definition is_label (s : string) : bool :=
  match s with
  | String c EmptyString => if digit_val c then true else false
  | _ => false
  end.

(** [func parseLinkState(state string) (LinkState, error)]; [inl] is the error. *)
Definition parseLinkState (line : string) : string + LinkState :=
  match split_sp line with
  | [t; st; f; d] =>
      match Atoi t with
      | None => inl "time is not an integer"%string
      | Some tm =>
          if tm <? 0 then inl "time must be greater than 0"%string
          else
            let ost := if String.eqb st "UP" then Some UP
                       else if String.eqb st "DOWN" then Some DOWN else None in
            match ost with
            | None => inl "invalid status"%string
            | Some s =>
                if negb (is_label f) then inl "invalid id"%string
                else if negb (is_label d) then inl "invalid id"%string
                else match Atoi f, Atoi d with
                     | Some a, Some b => inr (mkLinkState tm s (Z.to_nat a) (Z.to_nat b))
                     | _, _ => inl "invalid id"%string
                     end
            end
      end
  | _ => inl "must be of the form: '{TIME} {UP | DOWN} {LABEL} {LABEL}'"%string
  end.

(** The outcome of [NewNetworkTypology]: a topology, a returned error (and a
    [nil] topology), or the process exit of [log.Fatalln] on a line that does
    not parse. *)
Inductive TopologyResult :=
  | TopoOk (n : NetworkTypology)
  | TopoErr (e : string)
  | TopoFatal (e : string).

(** Adding a state to its link, creating the link (and the inner map) when absent. *)
Definition add_state (ls : gmap NodeID (gmap NodeID Link)) (st : LinkState)
    : gmap NodeID (gmap NodeID Link) :=
  match ls !! fromNode st with
  | None => <[fromNode st := {[toNode st := mkLink (fromNode st) (toNode st) [st]]}]> ls
  | Some dsts =>
      match dsts !! toNode st with
      | None => <[fromNode st := <[toNode st := mkLink (fromNode st) (toNode st) [st]]> dsts]> ls
      | Some dst =>
          <[fromNode st := <[toNode st := mkLink (link_fromNode dst) (link_toNode dst)
                                        (states dst ++ [st])]> dsts]> ls
      end
  end.

(** The read loop of [NewNetworkTypology], with [currTime]. *)
Fixpoint build_topology (lines : list string) (currTime : Z)
    (ls : gmap NodeID (gmap NodeID Link)) : TopologyResult :=
  match lines with
  | [] => TopoOk (mkNetworkTypology ls)
  | line :: rest =>
      match parseLinkState line with
      | inl e => TopoFatal e
      | inr st =>
          if time st <? currTime
          then TopoErr "entries in input must be sorted by increasing time"%string
          else build_topology rest (time st) (add_state ls st)
      end
  end.

(** [func NewNetworkTypology(in io.ReadCloser) (NetworkTypology, error)] on
    the file contents. *)
Definition NewNetworkTypology (input : string) : TopologyResult :=
  build_topology (read_lines input).1 0 ∅.

(* ------------------------------------------------------------------ *)
(** ** Definitions used by the proofs *)

Definition status_up (o : option LinkState) (dflt : bool) : bool :=
  match o with
  | Some s => LinkStatus_eqb (status s) UP
  | None => dflt
  end.

(** The two-hop destinations reachable through a list of candidates. *)
Definition union_reach (twoHop : gmap NodeID (gset NodeID)) (nodes : list Cand) : gset NodeID :=
  foldr (fun c acc => default ∅ (twoHop !! c_id c) ∪ acc) ∅ nodes.

Definition mpr_ok (oneHop : gmap NodeID OneHopNeighborEntry) (k : NodeID) : Prop :=
  state (default zeroOneHop (oneHop !! k)) <> Unidirectional.

(** The neighbor tables of a node: one-hop entries are keyed by their
    [neighborID] and never by the node itself, two-hop slots exist only for
    one-hop neighbors, and [msSet] maps each selector to itself. *)
Definition node_inv (n : Node) : Prop :=
  (forall k e, oneHopNeighbors n !! k = Some e -> neighborID e = k) /\
  oneHopNeighbors n !! n_id n = None /\
  dom (twoHopNeighbors n) ⊆ dom (oneHopNeighbors n) /\
  (forall k v, msSet n !! k = Some v -> v = k).

Definition same_nbrs (n n' : Node) : Prop :=
  n_id n' = n_id n /\ oneHopNeighbors n' = oneHopNeighbors n /\
  twoHopNeighbors n' = twoHopNeighbors n /\ msSet n' = msSet n.

Definition bucket (s : NeighborState) (ord : list (NodeID * OneHopNeighborEntry)) : list NodeID :=
  (fun kv => neighborID kv.2) <$> filter (fun kv => NeighborState_eqb (state kv.2) s = true) ord.

(** Receiving [m], the HELLO's two-hop table ranged over in [map_to_list] order. *)
Definition recv_hello (n : Node) (m : HelloMessage) : Node :=
  match handleHello_ord (map_to_list (hello_twoHop n m)) (log_input n (MHello m)) m with
  | Some n' => n'
  | None => n
  end.

(** The routing rebuild, every map ranged over in [map_to_list] order. *)
Definition rebuild (n : Node) : Node :=
  set_routesChanged
    (calculateRoutingTable_ord (map_to_list (oneHopNeighbors n)) (map_to_list (twoHopNeighbors n))
       (fun _ => topology_entries (topologyTable n)) n) false.

Definition demo_nm : NodeMsg := mkNodeMsg "hi"%string 0 2 false.

(** Node 0 hears a first HELLO from node 1, which lists node 2 as its
    bidirectional neighbor. *)
Definition demo_n1 : Node := recv_hello (NewNode 0 demo_nm) (mkHello 1 [] [2%nat] [] 0).

Definition demo_n2 : Node := rebuild demo_n1.

Definition demo8_nm : NodeMsg := mkNodeMsg "hi"%string 0 1 false.

(** Node 0 hears two HELLOs from node 1, the second listing node 0, so that
    node 1 becomes a bidirectional neighbor; then it rebuilds its routes. *)
Definition demo8_n : Node :=
  rebuild (recv_hello (recv_hello (NewNode 0 demo8_nm) (mkHello 1 [] [] [] 0))
                      (mkHello 1 [] [0%nat] [] 1)).

Definition nl : string := String "010"%char EmptyString.

(* ------------------------------------------------------------------ *)
(** ** String forms *)

(** The character of a decimal digit. *)
Definition digit_char (d : Z) : Ascii.ascii := Ascii.ascii_of_nat (Z.to_nat d + 48).

(** The decimal digits of a non-negative [z] below [10 ^ fuel], most
    significant first, in front of [acc]. *)
Fixpoint udigits (fuel : nat) (z : Z) (acc : string) : string :=
  match fuel with
  | O => acc
  | S f =>
      if z <? 10 then String (digit_char z) acc
      else udigits f (z / 10) (String (digit_char (z mod 10)) acc)
  end.

(** [fmt]'s [%d] and [strconv.Itoa] on a 64-bit [int] (twenty digits are
    more than any int64 or uint64 needs). *)
Definition format_int (z : Z) : string :=
  if z <? 0 then String "-"%char (udigits 20 (- z) EmptyString)
  else udigits 20 z EmptyString.

(** [func (n NodeID) String() string { return strconv.Itoa(int(n)) }] *)
Definition NodeID_String (n : NodeID) : string := format_int (Z.of_nat n).

Definition LinkStatus_String (s : LinkStatus) : string :=
  match s with UP => "UP"%string | DOWN => "DOWN"%string end.

(** [func (l *LinkState) String() string]: ["%d %s %d %d"]. *)
Definition LinkState_String (l : LinkState) : string :=
  String.append (format_int (time l))
    (String.append " "
      (String.append (LinkStatus_String (status l))
        (String.append " "
          (String.append (NodeID_String (fromNode l))
            (String.append " " (NodeID_String (toNode l))))))).

(** [func separatedString(items, separator)]: [strings.Join] of the items' String forms. *)
Definition separatedString (items : list NodeID) (separator : string) : string :=
  String.concat separator (map NodeID_String items).

(** [func (m HelloMessage) String()]: ["* %d HELLO UNIDIR %s BIDIR %s MPR %s"]. *)
Definition HelloMessage_String (m : HelloMessage) : string :=
  String.append "* "
    (String.append (NodeID_String (h_src m))
      (String.append " HELLO UNIDIR "
        (String.append (separatedString (unidir m) " ")
          (String.append " BIDIR "
            (String.append (separatedString (bidir m) " ")
              (String.append " MPR " (separatedString (mpr m) " "))))))).

(** [func (m TCMessage) String()]: ["* %d TC %d %d MS %s"]. *)
Definition TCMessage_String (m : TCMessage) : string :=
  String.append "* "
    (String.append (NodeID_String (tc_fromnbr m))
      (String.append " TC "
        (String.append (NodeID_String (tc_src m))
          (String.append " " (String.append (format_int (tc_seq m))
            (String.append " MS " (separatedString (ms m) " "))))))).

(** [func (m DataMessage) String()]: ["%d %d DATA %d %d %s"]. *)
Definition DataMessage_String (m : DataMessage) : string :=
  String.append (NodeID_String (nxtHop m))
    (String.append " "
      (String.append (NodeID_String (d_fromnbr m))
        (String.append " DATA "
          (String.append (NodeID_String (d_src m))
            (String.append " " (String.append (NodeID_String (d_dst m))
              (String.append " " (data m)))))))).

(** The fields [strings.Split] gives for a space-separated list: one empty
    field for an empty list. *)
Definition list_fields (items : list NodeID) : list string :=
  match items with
  | [] => [EmptyString]
  | _ => map NodeID_String items
  end.

(** A string without a space. *)
Fixpoint no_space (s : string) : bool :=
  match s with
  | EmptyString => true
  | String c r => negb (Ascii.eqb c " "%char) && no_space r
  end.

(* ------------------------------------------------------------------ *)
(** ** The oracle's map, read at both levels *)

Definition lookup2 (ls : gmap NodeID (gmap NodeID Link)) (f t : NodeID) : option Link :=
  ls !! f ≫= fun dsts => dsts !! t.

(** The records of the (from, to) pair, in file order. *)
Definition pair_states (f t : NodeID) (recs : list LinkState) : list LinkState :=
  filter (fun st => fromNode st = f /\ toNode st = t) recs.

(** The tick check of [NewNetworkTypology]'s loop, from [currTime]. *)
Fixpoint sorted_from (c : Z) (recs : list LinkState) : bool :=
  match recs with
  | [] => true
  | st :: rest => (c <=? time st) && sorted_from (time st) rest
  end.

(** Lines joined back, each followed by its newline. *)
Fixpoint join_lines (ls : list string) : string :=
  match ls with
  | [] => EmptyString
  | l :: rest => String.append l (String "010"%char (join_lines rest))
  end.

Fixpoint no_newline (s : string) : bool :=
  match s with
  | EmptyString => true
  | String c r => negb (Ascii.eqb c "010"%char) && no_newline r
  end.

(** A topology file used in the examples below. *)
Definition demo_topology_input : string :=
  String.append "0 UP 0 1"%string (String.append nl (String.append "5 DOWN 0 1"%string
    (String.append nl (String.append "7 UP 1 0"%string nl)))).

Definition demo_topology_records : list LinkState :=
  [mkLinkState 0 UP 0 1; mkLinkState 5 DOWN 0 1; mkLinkState 7 UP 1 0].

Definition demo_topology : NetworkTypology :=
  match NewNetworkTypology demo_topology_input with
  | TopoOk nt => nt
  | _ => mkNetworkTypology ∅
  end.

(* ------------------------------------------------------------------ *)
(** ** Routing entries *)

(** What a routing entry [(d, e)] of [rt] rests on: the one-hop table [oh],
    the two-hop table [th] and the topology entries [tes] of node [self]. *)
Definition entry_ok (self : NodeID) (oh : gmap NodeID OneHopNeighborEntry)
    (th : gmap NodeID (gset NodeID)) (tes : list TopologyEntry)
    (rt : gmap NodeID RoutingEntry) (d : NodeID) (e : RoutingEntry) : Prop :=
  r_dst e = d /\ d <> self /\ 1 <= distance e <= 256 /\ nextHop e ∈ dom oh /\
  (distance e = 1 -> nextHop e = d /\ exists o, oh !! d = Some o /\ state o <> Unidirectional) /\
  (distance e = 2 -> exists s, th !! nextHop e = Some s /\ d ∈ s) /\
  (2 < distance e -> exists O eO te, rt !! O = Some eO /\ distance eO = distance e - 1 /\
     nextHop eO = nextHop e /\ te ∈ tes /\ t_dst te = d /\ originator te = O).

Definition route_sound self oh th tes (rt : gmap NodeID RoutingEntry) : Prop :=
  forall d e, rt !! d = Some e -> entry_ok self oh th tes rt d e.

(** Two-hop sets and topology entries never name the node itself, nor does
    its routing table. *)
Definition tables_inv (n : Node) : Prop :=
  (forall k s, twoHopNeighbors n !! k = Some s -> n_id n ∉ s) /\
  (forall te, te ∈ topology_entries (topologyTable n) -> t_dst te <> n_id n) /\
  routingTable n !! n_id n = None.


(** The fields the routing invariant reads. *)
Definition same_tables (n n' : Node) : Prop :=
  n_id n' = n_id n /\ twoHopNeighbors n' = twoHopNeighbors n /\
  topologyTable n' = topologyTable n /\ routingTable n' = routingTable n.


(** Node 0 after a first HELLO from node 1, and a second HELLO of node 1 that
    selects node 0 as an MPR. *)
Definition demo_h0 : Node := recv_hello (NewNode 0 demo8_nm) (mkHello 1 [] [] [] 0).

Definition demo_h1 : HelloMessage := mkHello 1 [] [] [0%nat] 1.

Definition demo_h_ord : list (NodeID * gset NodeID) := map_to_list (hello_twoHop demo_h0 demo_h1).

Definition demo_h_res : Node :=
  match handleHello_ord demo_h_ord demo_h0 demo_h1 with Some n' => n' | None => demo_h0 end.


(* ------------------------------------------------------------------ *)
(** ** controller.go: message delivery *)





(* ------------------------------------------------------------------ *)
(** ** controller.go: ReadNodeConfiguration *)

Record NodeConfig := mkNodeConfig {
  cfg_id : NodeID;
  cfg_msg : NodeMsg
}.

(** The double quote character. *)
Definition quote_char : Ascii.ascii := Ascii.ascii_of_nat 34.

Definition is_digit (c : Ascii.ascii) : bool :=
  match digit_val c with Some _ => true | None => false end.

(** The matcher of the pattern
    [(\d{1,2}) (\d{1,2}) (".*?") (\d{1,2})] with Go's leftmost-first
    preference: each piece lists its (capture, rest) choices in the order a
    backtracking engine tries them, greedy [\d{1,2}] the longer first, lazy
    [.*?] the shorter first ([.] does not match a newline). *)
Definition re_digits (s : string) : list (string * string) :=
  match s with
  | String c1 r1 =>
      if is_digit c1 then
        match r1 with
        | String c2 r2 =>
            if is_digit c2 then [(String c1 (String c2 EmptyString), r2); (String c1 EmptyString, r1)]
            else [(String c1 EmptyString, r1)]
        | EmptyString => [(String c1 EmptyString, r1)]
        end
      else []
  | EmptyString => []
  end.

Fixpoint re_lazy_any (s : string) : list (string * string) :=
  (EmptyString, s) ::
    match s with
    | String c r =>
        if Ascii.eqb c "010"%char then []
        else map (fun pq => (String c pq.1, pq.2)) (re_lazy_any r)
    | EmptyString => []
    end.

Definition re_char (c : Ascii.ascii) (s : string) : list string :=
  match s with
  | String c' r => if Ascii.eqb c' c then [r] else []
  | EmptyString => []
  end.

(** The rest of the pattern after the lazy [.*?]: the closing quote, a
    space and the last [\d{1,2}], with the captures found so far. *)
Definition re_tail (m1 m2 body r : string) : list (string * string * string * string) :=
  flat_map (fun r1 =>
    flat_map (fun r2 =>
      map (fun dr => (m1, m2, String quote_char (String.append body (String quote_char EmptyString)), dr.1))
        (re_digits r2))
      (re_char " "%char r1))
    (re_char quote_char r).

Definition re_config_at (s : string) : list (string * string * string * string) :=
  flat_map (fun d1 =>
    flat_map (fun r1 =>
      flat_map (fun d2 =>
        flat_map (fun r2 =>
          flat_map (fun r3 =>
            flat_map (fun br => re_tail d1.1 d2.1 br.1 br.2) (re_lazy_any r3))
            (re_char quote_char r2))
          (re_char " "%char d2.2))
        (re_digits r1))
      (re_char " "%char d1.2))
    (re_digits s).

(** [re.FindStringSubmatch(line)]: the first match at the leftmost position;
    [None] is the nil slice. *)
Fixpoint FindStringSubmatch (s : string) : option (string * string * string * string) :=
  match re_config_at s with
  | m :: _ => Some m
  | [] => match s with
          | String _ r => FindStringSubmatch r
          | EmptyString => None
          end
  end.

Inductive ConfigResult :=
  | CfgOk (configs : list NodeConfig)
  | CfgErr (e : string)
  (** [matches[1]] on a nil [matches]: index out of range. *)
  | CfgPanic.

Inductive LineResult := LOk (c : NodeConfig) | LErr (e : string) | LPanic.

(** The body of the read loop for one line. *)
Definition config_of_line (line : string) : LineResult :=
  match FindStringSubmatch line with
  | None => LPanic
  | Some (m1, m2, m3, m4) =>
      match Atoi m1 with
      | None => LErr (String.append "invalid node config: id is not an int: " line)
      | Some id =>
          match Atoi m2 with
          | None => LErr (String.append "invalid node config: dst is not an int: " line)
          | Some dst =>
              match Atoi m4 with
              | None => LErr (String.append "invalid node config: delay is not an int: " line)
              | Some dly =>
                  LOk (mkNodeConfig (Z.to_nat id)
                         (mkNodeMsg (substring 1 (String.length m3 - 2) m3) dly (Z.to_nat dst) false))
              end
          end
      end
  end.

Fixpoint config_loop (lines : list string) (configs : list NodeConfig) : ConfigResult :=
  match lines with
  | [] => CfgOk configs
  | line :: rest =>
      match config_of_line line with
      | LOk c => config_loop rest (configs ++ [c])
      | LErr e => CfgErr e
      | LPanic => CfgPanic
      end
  end.

(** [func ReadNodeConfiguration(in io.ReadCloser) ([]NodeConfig, error)]; the
    lines are read as by [NewNetworkTypology]. *)
Definition ReadNodeConfiguration (input : string) : ConfigResult :=
  config_loop (read_lines input).1 [].


Fixpoint no_quote (s : string) : bool :=
  match s with
  | EmptyString => true
  | String c r => negb (Ascii.eqb c quote_char) && no_quote r
  end.

(** A configuration line in the form of the doc comment of
    [ReadNodeConfiguration]: [{id} {dst} "{msg}" {delay}]. *)
Definition config_line (c : NodeConfig) : string :=
  let sp r := String " "%char r in
  let q r := String quote_char r in
  String.append (NodeID_String (cfg_id c))
    (sp (String.append (NodeID_String (n_dst (cfg_msg c)))
      (sp (q (String.append (msg (cfg_msg c)) (q (sp (format_int (delay (cfg_msg c)))))))))).

(** A node configuration file in that form. *)
Definition config_file (cs : list NodeConfig) : string := join_lines (map config_line cs).

(** [y] is the first element of [l]. *)
Definition heads {A} (l : list A) (y : A) : Prop := exists m, l = y :: m.


(** The lines [config_line] reads back: ids and delay of at most two digits,
    a message with no double quote and no newline, not yet sent. *)
Definition config_ok (c : NodeConfig) : Prop :=
  (cfg_id c <= 99)%nat /\ (n_dst (cfg_msg c) <= 99)%nat /\ 0 <= delay (cfg_msg c) <= 99 /\
  no_quote (msg (cfg_msg c)) = true /\ no_newline (msg (cfg_msg c)) = true /\
  sent (cfg_msg c) = false.


Definition demo_configs : list NodeConfig :=
  [mkNodeConfig 12 (mkNodeMsg "hi there" 5 3 false); mkNodeConfig 3 (mkNodeMsg EmptyString 90 0 false)].

(* ================================================================== *)
(** * Properties *)

(* ------------------------------------------------------------------ *)
(** ** The topology oracle *)

Lemma isUp_loop_last (t : Z) (sts : list LinkState) (up : bool) :
  isUp_loop t sts up = status_up (last (filter (fun st => time st <= t) sts)) up.
Proof.
  revert up. induction sts as [|st rest IH]; intros up; [reflexivity|].
  cbn [isUp_loop]. destruct (decide (time st <= t)) as [Hle|Hgt].
  - rewrite filter_cons_True by exact Hle. rewrite last_cons.
    assert (Hge : (t >=? time st) = true) by (rewrite Z.geb_leb; apply Z.leb_le; lia).
    rewrite Hge. cbn [andb]. rewrite !IH.
    destruct (last (filter _ rest)); destruct (status st) eqn:E; simpl; rewrite ?E; reflexivity.
  - rewrite filter_cons_False by exact Hgt.
    assert (Hge : (t >=? time st) = false) by (rewrite Z.geb_leb; apply Z.leb_gt; lia).
    rewrite Hge. cbn [andb]. apply IH.
Qed.

Lemma strongly_sorted_filter (P : LinkState -> Prop) `{!forall x, Decision (P x)}
    (sts : list LinkState) :
  StronglySorted (fun a b => time a <= time b) sts ->
  StronglySorted (fun a b => time a <= time b) (filter P sts).
Proof.
  induction 1 as [|x l Hs IH Hall]; simpl; [constructor|].
  destruct (decide (P x)).
  - rewrite filter_cons_True by assumption. constructor; [exact IH|].
    apply Forall_forall. intros y Hy. rewrite list_elem_of_filter in Hy.
    destruct Hy as [_ Hy].
    exact (proj1 (Forall_forall _ _) Hall y Hy).
  - rewrite filter_cons_False by assumption. exact IH.
Qed.

Lemma strongly_sorted_last (sts : list LinkState) (s : LinkState) :
  StronglySorted (fun a b => time a <= time b) sts -> last sts = Some s ->
  forall r, r ∈ sts -> time r <= time s.
Proof.
  induction 1 as [|x l Hs IH Hall]; [discriminate|].
  rewrite last_cons. intros Hlast r Hr.
  destruct (last l) as [y|] eqn:Hl.
  - injection Hlast as <-. apply elem_of_cons in Hr as [->|Hr].
    + apply (proj1 (Forall_forall _ _) Hall).
      exact (last_Some_elem_of _ _ Hl).
    + exact (IH eq_refl r Hr).
  - injection Hlast as <-. apply last_None in Hl. subst l.
    apply elem_of_cons in Hr as [->|Hr]; [lia|]. apply not_elem_of_nil in Hr. done.
Qed.

(** C1: on a link whose states are sorted by non-decreasing tick, [isUp t]
    is true exactly when the most recent state with tick at most [t] exists
    and is UP (that state carries the greatest tick not above [t]), and false
    when there is no such state; [Query] reports DOWN for a (from, to) pair
    missing at either level of the oracle's map. *)
Theorem isUp_most_recent_and_unknown_down :
  (forall (l : Link) (t : Z), ticks_sorted (states l) ->
     (isUp l t = true <->
        exists s, most_recent t (states l) = Some s /\ status s = UP) /\
     (most_recent t (states l) = None -> isUp l t = false) /\
     (forall s, most_recent t (states l) = Some s ->
        time s <= t /\ forall r, r ∈ states l -> time r <= t -> time r <= time s)) /\
  (forall (topo : NetworkTypology) (q : QueryMsg),
     (links topo !! q_fromNode q = None \/
      exists ls, links topo !! q_fromNode q = Some ls /\ ls !! q_toNode q = None) ->
     Query topo q = false).
Proof.
  split.
  - intros l t Hsorted. unfold isUp, most_recent. rewrite isUp_loop_last.
    split; [|split].
    + destruct (last _) as [s|]; simpl.
      * split; [intros H; exists s; split; [reflexivity|]; destruct (status s); done|].
        intros (s' & Hs' & Hup). injection Hs' as <-. rewrite Hup. reflexivity.
      * split; [discriminate|]. intros (s' & Hs' & _). discriminate.
    + intros ->. reflexivity.
    + intros s Hs. pose proof (last_Some_elem_of _ _ Hs) as Hin.
      apply list_elem_of_filter in Hin as [Hst _]. split; [exact Hst|].
      intros r Hr Hrt.
      assert (Hss : StronglySorted (fun a b => time a <= time b) (states l)).
      { apply Sorted_StronglySorted; [intros a b c ??; lia | exact Hsorted]. }
      apply (strongly_sorted_last _ _ (strongly_sorted_filter _ _ Hss) Hs).
      apply list_elem_of_filter. split; assumption.
  - intros topo q [H | (ls & H1 & H2)]; unfold Query.
    + rewrite H. reflexivity.
    + rewrite H1, H2. reflexivity.
Qed.

Lemma isUp_most_recent_and_unknown_down_witness :
  ticks_sorted [mkLinkState 1 DOWN 0 1; mkLinkState 3 UP 0 1] /\
  exists s, most_recent 3 [mkLinkState 1 DOWN 0 1; mkLinkState 3 UP 0 1] = Some s /\ status s = UP.
Proof.
  assert (H : ticks_sorted [mkLinkState 1 DOWN 0 1; mkLinkState 3 UP 0 1]).
  { repeat constructor; simpl; lia. }
  split; [exact H|].
  apply (proj1 (proj1 (proj1 isUp_most_recent_and_unknown_down
                             (mkLink 0 1 [mkLinkState 1 DOWN 0 1; mkLinkState 3 UP 0 1]) 3 H))).
  reflexivity.
Defined.

(* ------------------------------------------------------------------ *)
(** ** Sequence filters of HELLO and TC reception *)

Lemma handleHello_update_helloSequences ord n m n' :
  handleHello_update ord n m = Some n' -> helloSequences n' = helloSequences n.
Proof.
  unfold handleHello_update. destruct (calculateMPRs_ord _ _ _); [|discriminate].
  intros H. injection H as <-. reflexivity.
Qed.

Lemma tc_entries_lookup (m : TCMessage) (hold : Z) (self d : NodeID) :
  tc_entries m hold self !! d =
    if bool_decide (d ∈ ms m /\ d <> self)
    then Some (mkTopologyEntry d (tc_src m) hold (tc_seq m)) else None.
Proof.
  unfold tc_entries.
  assert (Hgen : forall (l : list NodeID) (acc : gmap NodeID TopologyEntry),
    fold_left (fun entries d =>
      if Nat.eqb d self then entries
      else <[d := mkTopologyEntry d (tc_src m) hold (tc_seq m)]> entries) l acc !! d =
    if bool_decide (d ∈ l /\ d <> self)
    then Some (mkTopologyEntry d (tc_src m) hold (tc_seq m)) else acc !! d).
  { induction l as [|x l IH]; intros acc; cbn [fold_left].
    - rewrite bool_decide_false; [reflexivity|]. intros [Hin _]. by apply not_elem_of_nil in Hin.
    - rewrite IH. destruct (Nat.eqb_spec x self) as [Heq|Hne].
      + destruct (bool_decide_reflect (d ∈ l /\ d <> self)) as [Hl|Hl];
          destruct (bool_decide_reflect (d ∈ x :: l /\ d <> self)) as [Hxl|Hxl];
          try reflexivity; exfalso; set_solver.
      + destruct (bool_decide_reflect (d ∈ l /\ d <> self)) as [Hl|Hl];
          destruct (bool_decide_reflect (d ∈ x :: l /\ d <> self)) as [Hxl|Hxl];
          try reflexivity; try (exfalso; set_solver).
        all: destruct (decide (x = d)) as [->|Hxd];
          [rewrite lookup_insert_eq | rewrite lookup_insert_ne by exact Hxd];
          try reflexivity; exfalso; set_solver. }
  rewrite Hgen. destruct (bool_decide _); reflexivity.
Qed.

Lemma tc_stale_spec (m : TCMessage) (tt : gmap NodeID (gmap NodeID TopologyEntry)) :
  tc_stale m tt = true <->
  exists entries d entry, tt !! tc_src m = Some entries /\ d ∈ ms m /\
    entries !! d = Some entry /\ tc_seq m < seq entry.
Proof.
  unfold tc_stale. destruct (tt !! tc_src m) as [entries|].
  - rewrite existsb_exists. split.
    + intros (d & Hin & Hd). destruct (entries !! d) as [entry|] eqn:He; [|discriminate].
      exists entries, d, entry. repeat split; [|exact He|lia].
      by apply list_elem_of_In.
    + intros (es & d & entry & Hes & Hin & He & Hlt). injection Hes as <-.
      exists d. split; [by apply list_elem_of_In|]. rewrite He. lia.
  - split; [discriminate|]. intros (es & _ & _ & Hes & _). discriminate.
Qed.

(** C2 (as the code has it): a HELLO from [S] is ignored (the node is
    returned unchanged) iff a sequence number is recorded for [S] and the
    HELLO's sequence is at most it.  A TC carries no per-originator sequence
    record: a TC originated by the node itself is dropped unchanged; for any
    other TC from [O] the topology table is left as it is exactly when it
    holds, for some destination listed in the TC, an entry from [O] with a
    greater sequence, and otherwise [topologyTable[O]] is replaced by one
    entry per listed destination other than the node, with the TC's sequence
    and the new hold time. *)
Theorem hello_ignored_iff_tc_table_update :
  (forall ord (n : Node) (m : HelloMessage),
     handleHello_ord ord n m = Some n <->
     exists s, helloSequences n !! h_src m = Some s /\ h_seq m <= s) /\
  (forall (n : Node) (m : TCMessage),
     tc_src m = n_id n -> handleTC n m = n) /\
  (forall (n : Node) (m : TCMessage),
     tc_src m <> n_id n ->
     let tt := topologyTable n in
     let hold := add64 (currentTick n) (topologyHoldTime n) in
     ((exists entries d entry, tt !! tc_src m = Some entries /\ d ∈ ms m /\
         entries !! d = Some entry /\ tc_seq m < seq entry) ->
      topologyTable (handleTC n m) = tt) /\
     (~ (exists entries d entry, tt !! tc_src m = Some entries /\ d ∈ ms m /\
           entries !! d = Some entry /\ tc_seq m < seq entry) ->
      topologyTable (handleTC n m) = <[tc_src m := tc_entries m hold (n_id n)]> tt /\
      forall d, tc_entries m hold (n_id n) !! d =
        if bool_decide (d ∈ ms m /\ d <> n_id n)
        then Some (mkTopologyEntry d (tc_src m) hold (tc_seq m)) else None)).
Proof.
  split; [|split].
  - intros ord n m. unfold handleHello_ord.
    destruct (helloSequences n !! h_src m) as [s|] eqn:Hs.
    + destruct (Z.leb_spec (h_seq m) s) as [Hle|Hgt].
      * split; [intros _; exists s; split; [reflexivity|exact Hle]|reflexivity].
      * split; [|intros (s' & Hs' & Hle); injection Hs' as <-; lia].
        intros H. apply handleHello_update_helloSequences in H.
        simpl in H. exfalso.
        assert (Hl : (<[h_src m := h_seq m]> (helloSequences n) : gmap NodeID Z) !! h_src m
                     = helloSequences n !! h_src m) by (rewrite <- H; reflexivity).
        rewrite lookup_insert_eq, Hs in Hl. injection Hl. lia.
    + split; [|intros (s' & Hs' & _); discriminate].
      intros H. apply handleHello_update_helloSequences in H. simpl in H. exfalso.
      assert (Hl : (<[h_src m := h_seq m]> (helloSequences n) : gmap NodeID Z) !! h_src m
                   = helloSequences n !! h_src m) by (rewrite <- H; reflexivity).
      rewrite lookup_insert_eq, Hs in Hl. discriminate.
  - intros n m Heq. unfold handleTC. rewrite Heq, Nat.eqb_refl. reflexivity.
  - intros n m Hne. cbv zeta.
    assert (Htop : topologyTable (handleTC n m) =
              updateTopologyTable m (topologyTable n)
                (add64 (currentTick n) (topologyHoldTime n)) (n_id n)).
    { unfold handleTC. destruct (Nat.eqb_spec (tc_src m) (n_id n)) as [E|_]; [contradiction|].
      destruct (tc_doFwd _ _); reflexivity. }
    rewrite Htop. unfold updateTopologyTable. split.
    + intros Hst. apply tc_stale_spec in Hst. rewrite Hst. reflexivity.
    + intros Hst. destruct (tc_stale m (topologyTable n)) eqn:E.
      * exfalso. apply Hst, tc_stale_spec, E.
      * split; [reflexivity|]. intros d. apply tc_entries_lookup.
Qed.

Lemma hello_ignored_iff_tc_table_update_witness :
  tc_src (mkTC 2 2 1 [4%nat]) <> n_id (NewNode 0 (mkNodeMsg "m" 50 3 false)) /\
  topologyTable (handleTC (NewNode 0 (mkNodeMsg "m" 50 3 false)) (mkTC 2 2 1 [4%nat])) =
    <[2%nat := tc_entries (mkTC 2 2 1 [4%nat]) 30 0]> ∅.
Proof.
  assert (Hne : tc_src (mkTC 2 2 1 [4%nat]) <> n_id (NewNode 0 (mkNodeMsg "m" 50 3 false)))
    by (simpl; lia).
  split; [exact Hne|].
  refine (proj1 (proj2 (proj2 (proj2 hello_ignored_iff_tc_table_update) _ _ Hne) _)).
  intros (es & d & e & Hes & _). discriminate.
Defined.

(** C2, as stated, fails: after a TC from originator 2 with sequence 5
    (destination 3), a TC from 2 with the smaller sequence 1 (destination 4)
    is not ignored: it replaces the topology entries of originator 2. *)
Lemma tc_lower_sequence_not_ignored :
  let n1 := handleTC (NewNode 0 (mkNodeMsg "m" 50 9 false)) (mkTC 2 2 5 [3%nat]) in
  let n2 := handleTC n1 (mkTC 2 2 1 [4%nat]) in
  tc_seq (mkTC 2 2 1 [4%nat]) < tc_seq (mkTC 2 2 5 [3%nat]) /\
  topologyTable n2 <> topologyTable n1.
Proof.
  simpl. split; [lia|]. intros H.
  apply (f_equal (fun (tt : gmap NodeID (gmap NodeID TopologyEntry)) =>
                    tt !! 2%nat ≫= fun es => es !! 4%nat)) in H.
  vm_compute in H. discriminate.
Qed.

(* ------------------------------------------------------------------ *)
(** ** MPR selection *)

Lemma NeighborState_eqb_false a b : NeighborState_eqb a b = false <-> a <> b.
Proof. destruct a, b; simpl; split; congruence. Qed.

Lemma NeighborState_eqb_true a b : NeighborState_eqb a b = true <-> a = b.
Proof. destruct a, b; simpl; split; congruence. Qed.

Lemma elem_of_union_reach twoHop nodes x :
  x ∈ union_reach twoHop nodes <-> exists c, c ∈ nodes /\ x ∈ default ∅ (twoHop !! c_id c).
Proof.
  induction nodes as [|c nodes IH]; simpl.
  - split; [set_solver|]. intros (c & Hc & _). by apply not_elem_of_nil in Hc.
  - rewrite elem_of_union, IH. split.
    + intros [Hx|(c' & Hc' & Hx)]; [exists c; split; [left|]; done|].
      exists c'. split; [by right|done].
    + intros (c' & Hc' & Hx). apply elem_of_cons in Hc' as [->|Hc']; [by left|].
      right. eauto.
Qed.

Lemma union_reach_perm twoHop l1 l2 :
  l1 ≡ₚ l2 -> union_reach twoHop l1 = union_reach twoHop l2.
Proof.
  intros Hp. apply set_eq. intros x. rewrite !elem_of_union_reach.
  split; intros (c & Hc & Hx); exists c; split; try done; [by rewrite <- Hp | by rewrite Hp].
Qed.

Lemma insert_stable_perm {A} (less : A -> A -> bool) x l :
  insert_stable less x l ≡ₚ x :: l.
Proof.
  induction l as [|y l IH]; simpl; [done|].
  destruct (less y x); [|done]. rewrite IH. apply Permutation_swap.
Qed.

Lemma sort_stable_perm {A} (less : A -> A -> bool) l : sort_stable less l ≡ₚ l.
Proof.
  induction l as [|x l IH]; simpl; [done|].
  rewrite insert_stable_perm. by apply Permutation_skip.
Qed.

Lemma mpr_candidates_fold (oneHop : gmap NodeID OneHopNeighborEntry)
    (l : list (NodeID * gset NodeID)) (nodes0 : list Cand) (rem0 : gset NodeID) :
  let '(nodes, rem) := fold_left (mpr_cand_step oneHop) l (nodes0, rem0) in
  (forall x, x ∈ rem <-> x ∈ rem0 \/ exists k s, (k, s) ∈ l /\ mpr_ok oneHop k /\ x ∈ s) /\
  (forall c, c ∈ nodes0 -> c ∈ nodes) /\
  (forall k s, (k, s) ∈ l -> mpr_ok oneHop k -> mkCand k (size s) ∈ nodes) /\
  (forall c, c ∈ nodes -> c ∈ nodes0 \/ mpr_ok oneHop (c_id c)).
Proof.
  revert nodes0 rem0. induction l as [|[k s] l IH]; intros nodes0 rem0; cbn [fold_left].
  - split; [|split; [|split]]; try done.
    + intros x. split; [by left|]. intros [Hx|(k & s & Hks & _)]; [done|].
      by apply not_elem_of_nil in Hks.
    + intros k s Hks. by apply not_elem_of_nil in Hks.
    + intros c Hc. by left.
  - unfold mpr_cand_step at 2. cbv zeta.
    destruct (NeighborState_eqb (state (default zeroOneHop (oneHop !! k))) Unidirectional) eqn:E.
    + apply NeighborState_eqb_true in E.
      specialize (IH nodes0 rem0). destruct (fold_left _ l _) as [nodes rem].
      destruct IH as (IH1 & IH2 & IH3 & IH4). split; [|split; [|split]]; try done.
      * intros x. rewrite IH1. split.
        -- intros [Hx|(k' & s' & Hks & Hok & Hx)]; [by left|].
           right. exists k', s'. split; [by right|done].
        -- intros [Hx|(k' & s' & Hks & Hok & Hx)]; [by left|].
           apply elem_of_cons in Hks as [Heq|Hks].
           ++ injection Heq as -> ->. unfold mpr_ok in Hok. contradiction.
           ++ right. eauto.
      * intros k' s' Hks Hok. apply elem_of_cons in Hks as [Heq|Hks].
        -- injection Heq as -> ->. unfold mpr_ok in Hok. contradiction.
        -- eauto.
    + apply NeighborState_eqb_false in E.
      specialize (IH (nodes0 ++ [mkCand k (size s)]) (s ∪ rem0)).
      destruct (fold_left _ l _) as [nodes rem].
      destruct IH as (IH1 & IH2 & IH3 & IH4). split; [|split; [|split]].
      * intros x. rewrite IH1, elem_of_union. split.
        -- intros [[Hx|Hx]|(k' & s' & Hks & Hok & Hx)].
           ++ right. exists k, s. split; [by left|done].
           ++ by left.
           ++ right. exists k', s'. split; [by right|done].
        -- intros [Hx|(k' & s' & Hks & Hok & Hx)]; [left; by right|].
           apply elem_of_cons in Hks as [Heq|Hks].
           ++ injection Heq as -> ->. left. by left.
           ++ right. eauto.
      * intros c Hc. apply IH2. set_solver.
      * intros k' s' Hks Hok. apply elem_of_cons in Hks as [Heq|Hks].
        -- injection Heq as -> ->. apply IH2. set_solver.
        -- eauto.
      * intros c Hc. destruct (IH4 c Hc) as [Hc'|Hc']; [|by right].
        apply elem_of_app in Hc' as [Hc'|Hc']; [by left|].
        apply list_elem_of_singleton in Hc'. subst c. right. exact E.
Qed.

Lemma mpr_candidates_spec (ord : list (NodeID * gset NodeID))
    (oneHop : gmap NodeID OneHopNeighborEntry) nodes rem :
  mpr_candidates ord oneHop = (nodes, rem) ->
  (forall x, x ∈ rem <-> exists k s, (k, s) ∈ ord /\ mpr_ok oneHop k /\ x ∈ s) /\
  (forall k s, (k, s) ∈ ord -> mpr_ok oneHop k -> mkCand k (size s) ∈ nodes) /\
  (forall c, c ∈ nodes -> mpr_ok oneHop (c_id c)).
Proof.
  unfold mpr_candidates. pose proof (mpr_candidates_fold oneHop ord [] ∅) as H.
  intros E. rewrite E in H. destruct H as (H1 & _ & H3 & H4). split; [|split].
  - intros x. rewrite H1. split; [intros [Hx|Hx]; [set_solver|done]|by right].
  - exact H3.
  - intros c Hc. destruct (H4 c Hc) as [Hc'|Hc']; [by apply not_elem_of_nil in Hc'|done].
Qed.

(** The greedy loop never pops from an empty list while the uncovered set
    stays inside the reach of the candidates not yet popped. *)
Lemma mpr_loop_some twoHop nodes remaining mprs :
  remaining ⊆ union_reach twoHop nodes ->
  exists mprs' pre rest,
    mpr_loop twoHop remaining nodes mprs = Some (mprs', rest) /\ nodes = pre ++ rest.
Proof.
  revert remaining mprs. induction nodes as [|c nodes IH]; intros remaining mprs Hsub; simpl.
  - assert (remaining = ∅) as -> by (simpl in Hsub; set_solver).
    rewrite decide_True by reflexivity. exists mprs, [], []. done.
  - destruct (decide (remaining = ∅)).
    + exists mprs, [], (c :: nodes). done.
    + destruct (IH (remaining ∖ default ∅ (twoHop !! c_id c)) ({[c_id c]} ∪ mprs))
        as (mprs' & pre & rest & Hl & ->).
      { simpl in Hsub. set_solver. }
      exists mprs', (c :: pre), rest. done.
Qed.

Lemma mpr_loop_cover twoHop nodes remaining mprs mprs' rest :
  mpr_loop twoHop remaining nodes mprs = Some (mprs', rest) ->
  mprs ⊆ mprs' /\
  (forall m, m ∈ mprs' -> m ∈ mprs \/ exists c, c ∈ nodes /\ c_id c = m) /\
  forall x, x ∈ remaining -> exists m, m ∈ mprs' /\ x ∈ default ∅ (twoHop !! m).
Proof.
  revert remaining mprs. induction nodes as [|c nodes IH]; intros remaining mprs; simpl.
  - destruct (decide (remaining = ∅)) as [->|]; [|discriminate].
    intros H. injection H as <- <-. split; [done|]. split; [by left|set_solver].
  - destruct (decide (remaining = ∅)) as [->|Hne].
    + intros H. injection H as <- <-. split; [done|]. split; [by left|set_solver].
    + intros H. destruct (IH _ _ H) as (Hsub & Hfrom & Hcov). split; [set_solver|split].
      * intros m Hm. destruct (Hfrom m Hm) as [Hm'|(c' & Hc' & <-)].
        -- apply elem_of_union in Hm' as [Hm'|Hm']; [|by left].
           apply elem_of_singleton in Hm'. subst m. right. exists c. split; [by left|done].
        -- right. exists c'. split; [by right|done].
      * intros x Hx. destruct (decide (x ∈ default ∅ (twoHop !! c_id c))) as [Hin|Hnin].
        -- exists (c_id c). split; [apply Hsub; set_solver|exact Hin].
        -- apply Hcov. set_solver.
Qed.

Lemma ord_elem (ord : list (NodeID * gset NodeID)) (twoHop : gmap NodeID (gset NodeID)) k s :
  ord ≡ₚ map_to_list twoHop -> ((k, s) ∈ ord <-> twoHop !! k = Some s).
Proof. intros Hp. rewrite Hp. apply elem_of_map_to_list. Qed.

Lemma mpr_remaining_covered (ord : list (NodeID * gset NodeID)) oneHop twoHop nodes rem :
  ord ≡ₚ map_to_list twoHop -> mpr_candidates ord oneHop = (nodes, rem) ->
  rem ⊆ union_reach twoHop (sort_by_reaches nodes).
Proof.
  intros Hp E. destruct (mpr_candidates_spec _ _ _ _ E) as (H1 & H2 & _).
  unfold sort_by_reaches. rewrite (union_reach_perm _ _ _ (sort_stable_perm _ nodes)).
  intros x Hx. apply H1 in Hx as (k & s & Hks & Hok & Hx).
  apply elem_of_union_reach. exists (mkCand k (size s)). split; [by apply H2|].
  simpl. apply (ord_elem _ _ _ _ Hp) in Hks. rewrite Hks. exact Hx.
Qed.

(** C5: [calculateMPRs] terminates without a panic for every pair of tables
    (with [twoHopNeighbors] ranged over in any order): the uncovered set is
    contained in the reach of the sorted candidates, and the greedy loop
    returns after popping a prefix of the candidate list, so after at most
    as many iterations as there are candidates. *)
Theorem calculateMPRs_terminates :
  forall (ord : list (NodeID * gset NodeID)) (oneHop : gmap NodeID OneHopNeighborEntry)
         (twoHop : gmap NodeID (gset NodeID)),
    ord ≡ₚ map_to_list twoHop ->
    (exists res, calculateMPRs_ord ord oneHop twoHop = Some res) /\
    forall nodes rem, mpr_candidates ord oneHop = (nodes, rem) ->
      rem ⊆ union_reach twoHop (sort_by_reaches nodes) /\
      exists mprs pre rest,
        mpr_loop twoHop rem (sort_by_reaches nodes) ∅ = Some (mprs, rest) /\
        sort_by_reaches nodes = pre ++ rest /\ (length pre <= length nodes)%nat.
Proof.
  intros ord oneHop twoHop Hp.
  assert (Hloop : forall nodes rem, mpr_candidates ord oneHop = (nodes, rem) ->
      rem ⊆ union_reach twoHop (sort_by_reaches nodes) /\
      exists mprs pre rest,
        mpr_loop twoHop rem (sort_by_reaches nodes) ∅ = Some (mprs, rest) /\
        sort_by_reaches nodes = pre ++ rest /\ (length pre <= length nodes)%nat).
  { intros nodes rem E. pose proof (mpr_remaining_covered _ _ _ _ _ Hp E) as Hsub.
    split; [exact Hsub|].
    destruct (mpr_loop_some twoHop (sort_by_reaches nodes) rem ∅ Hsub)
      as (mprs & pre & rest & Hl & Heq).
    exists mprs, pre, rest. split; [exact Hl|]. split; [exact Heq|].
    assert (Hlen : length (sort_by_reaches nodes) = length nodes)
      by (apply Permutation_length, sort_stable_perm).
    rewrite Heq, length_app in Hlen. lia. }
  split; [|exact Hloop].
  unfold calculateMPRs_ord. destruct (mpr_candidates ord oneHop) as [nodes rem] eqn:E.
  destruct (Hloop nodes rem eq_refl) as (_ & mprs & pre & rest & Hl & _).
  rewrite Hl. eexists. reflexivity.
Qed.

Lemma calculateMPRs_lookup ord oneHop twoHop res k :
  calculateMPRs_ord ord oneHop twoHop = Some res ->
  exists mprs rest nodes rem,
    mpr_candidates ord oneHop = (nodes, rem) /\
    mpr_loop twoHop rem (sort_by_reaches nodes) ∅ = Some (mprs, rest) /\
    res !! k = mpr_update mprs k <$> oneHop !! k.
Proof.
  unfold calculateMPRs_ord. destruct (mpr_candidates ord oneHop) as [nodes rem].
  destruct (mpr_loop _ _ _ _) as [[mprs rest]|] eqn:Hl; [|discriminate].
  intros H. injection H as <-. exists mprs, rest, nodes, rem. split; [done|split; [done|]].
  rewrite map_lookup_imap. destruct (oneHop !! k); reflexivity.
Qed.

(** C4 (as the code has it): when every key of the two-hop table is a
    one-hop neighbor (the case in every reachable node state, see C10),
    [calculateMPRs] returns a table in which every two-hop destination
    reachable through a non-Unidirectional one-hop neighbor is reachable
    through a neighbor whose new state is MPR; Unidirectional neighbors are
    left untouched (never chosen). *)
Theorem calculateMPRs_coverage :
  forall (ord : list (NodeID * gset NodeID)) (oneHop : gmap NodeID OneHopNeighborEntry)
         (twoHop : gmap NodeID (gset NodeID)),
    ord ≡ₚ map_to_list twoHop ->
    dom twoHop ⊆ dom oneHop ->
    exists res, calculateMPRs_ord ord oneHop twoHop = Some res /\
      (forall nb e s x, oneHop !! nb = Some e -> state e <> Unidirectional ->
         twoHop !! nb = Some s -> x ∈ s ->
         exists m e' s', res !! m = Some e' /\ state e' = MPR /\
           twoHop !! m = Some s' /\ x ∈ s') /\
      (forall k e, oneHop !! k = Some e -> state e = Unidirectional -> res !! k = Some e).
Proof.
  intros ord oneHop twoHop Hp Hdom.
  destruct (proj1 (calculateMPRs_terminates ord oneHop twoHop Hp)) as [res Hres].
  exists res. split; [exact Hres|].
  destruct (mpr_candidates ord oneHop) as [nodes rem] eqn:E.
  destruct (mpr_candidates_spec _ _ _ _ E) as (H1 & _ & H3).
  assert (Hl : forall k, exists mprs rest,
             mpr_loop twoHop rem (sort_by_reaches nodes) ∅ = Some (mprs, rest) /\
             res !! k = mpr_update mprs k <$> oneHop !! k).
  { intros k. destruct (calculateMPRs_lookup _ _ _ _ k Hres)
      as (mprs & rest & nodes' & rem' & E' & Hl & Hk).
    rewrite E in E'. injection E' as <- <-. eauto. }
  split.
  - intros nb e s x Hnb Hst Hs Hx.
    destruct (Hl nb) as (mprs & rest & Hloop & _).
    destruct (mpr_loop_cover _ _ _ _ _ _ Hloop) as (_ & _ & Hcov).
    assert (Hrem : x ∈ rem).
    { apply H1. exists nb, s. split; [by apply (ord_elem _ _ _ _ Hp)|].
      split; [|exact Hx]. unfold mpr_ok. rewrite Hnb. exact Hst. }
    destruct (Hcov x Hrem) as (m & Hm & Hxm).
    destruct (twoHop !! m) as [s'|] eqn:Hs'; [|simpl in Hxm; set_solver].
    assert (Hmd : m ∈ dom oneHop) by (apply Hdom, elem_of_dom; eauto).
    apply elem_of_dom in Hmd as [e0 He0].
    destruct (Hl m) as (mprs2 & rest2 & Hloop2 & Hk).
    rewrite Hloop in Hloop2. injection Hloop2 as <- <-.
    exists m, (mpr_update mprs m e0), s'. rewrite Hk, He0. simpl.
    unfold mpr_update. rewrite decide_True by exact Hm. done.
  - intros k e Hk Hst. destruct (Hl k) as (mprs & rest & Hloop & Hres_k).
    rewrite Hres_k, Hk. simpl. unfold mpr_update.
    destruct (mpr_loop_cover _ _ _ _ _ _ Hloop) as (_ & Hfrom & _).
    rewrite decide_False.
    + rewrite Hst. reflexivity.
    + intros Hkm. destruct (Hfrom k Hkm) as [Hk'|(c & Hc & Hck)]; [set_solver|].
      assert (Hok : mpr_ok oneHop (c_id c)).
      { apply H3. unfold sort_by_reaches in Hc. by rewrite (sort_stable_perm _ nodes) in Hc. }
      unfold mpr_ok in Hok. rewrite Hck, Hk in Hok. contradiction.
Qed.

Lemma calculateMPRs_coverage_witness :
  let oh := <[1%nat := mkOneHop 1 Bidirectional 10]> (<[2%nat := mkOneHop 2 Bidirectional 10]> ∅)
    : gmap NodeID OneHopNeighborEntry in
  let th := <[1%nat := {[3%nat; 4%nat]}]> (<[2%nat := {[3%nat]}]> ∅) : gmap NodeID (gset NodeID) in
  map_to_list th ≡ₚ map_to_list th /\ dom th ⊆ dom oh /\
  exists res, calculateMPRs oh th = Some res /\
    (forall nb e s x, oh !! nb = Some e -> state e <> Unidirectional ->
       th !! nb = Some s -> x ∈ s ->
       exists m e' s', res !! m = Some e' /\ state e' = MPR /\ th !! m = Some s' /\ x ∈ s').
Proof.
  intros oh th.
  assert (Hd : dom th ⊆ dom oh) by (unfold oh, th; rewrite !dom_insert_L; set_solver).
  split; [reflexivity|]. split; [exact Hd|].
  destruct (calculateMPRs_coverage (map_to_list th) oh th (reflexivity _) Hd) as (res & Hr & Hc & _).
  exists res. split; [exact Hr|exact Hc].
Defined.

(** C4, as stated for every pair of tables, fails when a two-hop key has no
    one-hop entry: its zero-value lookup makes it a candidate, it is popped
    first and covers node 3, and the real bidirectional neighbor 1, which
    reaches 3, is not selected, so no neighbor ends up in state MPR. *)
Lemma calculateMPRs_ghost_key_uncovered :
  let oh := {[1%nat := mkOneHop 1 Bidirectional 10]} : gmap NodeID OneHopNeighborEntry in
  let th := <[1%nat := {[3%nat]}]> {[2%nat := {[3%nat; 4%nat]}]} : gmap NodeID (gset NodeID) in
  oh !! 1%nat = Some (mkOneHop 1 Bidirectional 10) /\ th !! 1%nat = Some {[3%nat]} /\
  exists res, calculateMPRs oh th = Some res /\
    forall m e, res !! m = Some e -> state e <> MPR.
Proof.
  intros oh th. split; [reflexivity|]. split; [reflexivity|].
  exists {[1%nat := mkOneHop 1 Bidirectional 10]}. split; [vm_compute; reflexivity|].
  intros m e H. destruct (decide (m = 1%nat)) as [->|Hne].
  - rewrite lookup_singleton_eq in H. injection H as <-. discriminate.
  - rewrite lookup_singleton_ne in H by congruence. discriminate.
Qed.

Lemma calculateMPRs_terminates_witness :
  let th := <[1%nat := {[3%nat]}]> {[2%nat := {[4%nat]}]} : gmap NodeID (gset NodeID) in
  let oh := <[1%nat := mkOneHop 1 Bidirectional 10]> {[2%nat := mkOneHop 2 Bidirectional 10]}
    : gmap NodeID OneHopNeighborEntry in
  map_to_list th ≡ₚ map_to_list th /\
  exists res, calculateMPRs_ord (map_to_list th) oh th = Some res.
Proof.
  intros th oh. split; [reflexivity|].
  exact (proj1 (calculateMPRs_terminates (map_to_list th) oh th (reflexivity _))).
Defined.

(** ** Invariants of reachable node states *)

Lemma node_inv_frame n n' : same_nbrs n n' -> node_inv n -> node_inv n'.
Proof.
  intros (E1 & E2 & E3 & E4). unfold node_inv. rewrite E1, E2, E3, E4. done.
Qed.

Ltac frame_tac :=
  repeat match goal with
         | |- context [if ?b then _ else _] => destruct b
         | |- context [match ?x with _ => _ end] => destruct x
         end; cbn; repeat split.

Lemma same_nbrs_log_input n m : same_nbrs n (log_input n m).
Proof. unfold same_nbrs; cbn; repeat split. Qed.

Lemma same_nbrs_handleTC n m : same_nbrs n (handleTC n m).
Proof. unfold same_nbrs, handleTC. frame_tac. Qed.

Lemma same_nbrs_sendData n m : same_nbrs n (sendData n m).1.
Proof. unfold same_nbrs, sendData. frame_tac. Qed.

Lemma same_nbrs_handleData n m : same_nbrs n (handleData n m).
Proof.
  unfold handleData. destruct (Nat.eqb _ _); [unfold same_nbrs; cbn; repeat split|].
  apply same_nbrs_sendData.
Qed.

Lemma same_nbrs_sendHello_ord ord n : same_nbrs n (sendHello_ord ord n).
Proof. unfold same_nbrs; cbn; repeat split. Qed.

Lemma same_nbrs_sendTC n : same_nbrs n (sendTC n).
Proof. unfold same_nbrs; cbn; repeat split. Qed.

Lemma same_nbrs_originate n : same_nbrs n (originate n).
Proof.
  unfold originate. pose proof (same_nbrs_sendData n (mkData (n_id n) (n_dst (nodeMsg n)) 0 0 (msg (nodeMsg n)))) as H.
  destruct (sendData _ _) as [n' ok]. destruct H as (E1 & E2 & E3 & E4).
  destruct ok; unfold same_nbrs; cbn; auto.
Qed.

Lemma same_nbrs_routes ord1 ord2 tord n b :
  same_nbrs n (set_routesChanged (calculateRoutingTable_ord ord1 ord2 tord n) b).
Proof. unfold same_nbrs; cbn; repeat split. Qed.

Lemma same_nbrs_tick n z : same_nbrs n (set_currentTick n z).
Proof. unfold same_nbrs; cbn; repeat split. Qed.

Lemma mpr_update_neighborID mprs k e : neighborID (mpr_update mprs k e) = neighborID e.
Proof.
  unfold mpr_update. destruct (decide _); [done|]. destruct (NeighborState_eqb _ _); done.
Qed.

Lemma updateOneHopNeighbors_lookup m oh hold self k :
  updateOneHopNeighbors m oh hold self !! k =
    if decide (k = h_src m) then
      Some (match oh !! h_src m with
            | None => mkOneHop (h_src m) Unidirectional hold
            | Some entry =>
                mkOneHop (neighborID entry)
                  (if existsb (fun x => Nat.eqb x self) (unidir m ++ (bidir m ++ mpr m))
                   then Bidirectional else Unidirectional) hold
            end)
    else oh !! k.
Proof.
  unfold updateOneHopNeighbors.
  destruct (oh !! h_src m); destruct (decide (k = h_src m)) as [->|Hne];
    rewrite ?lookup_insert_eq, ?lookup_insert_ne by congruence; reflexivity.
Qed.

Lemma handleHello_update_inv ord n m n' :
  node_inv n -> h_src m <> n_id n ->
  handleHello_update ord n m = Some n' -> node_inv n'.
Proof.
  intros (I1 & I2 & I3 & I4) Hsrc. unfold handleHello_update.
  destruct (calculateMPRs_ord _ _ _) as [oh2|] eqn:Hc; [|discriminate].
  intros H. injection H as <-. cbn.
  set (oh1 := updateOneHopNeighbors m (oneHopNeighbors n)
                (add64 (currentTick n) (neighborHoldTime n)) (n_id n)) in *.
  assert (L : forall k, exists mprs, oh2 !! k = mpr_update mprs k <$> oh1 !! k).
  { intros k. destruct (calculateMPRs_lookup _ _ _ _ k Hc) as (mprs & _ & _ & _ & _ & _ & Hk).
    eauto. }
  assert (L1 : forall k e, oh1 !! k = Some e -> neighborID e = k).
  { intros k e. unfold oh1. rewrite updateOneHopNeighbors_lookup.
    destruct (decide (k = h_src m)) as [->|Hne].
    - destruct (oneHopNeighbors n !! h_src m) eqn:E; intros Hs; injection Hs as <-; cbn; eauto.
    - apply I1. }
  unfold node_inv; cbn. split; [|split; [|split]].
  - intros k e Hk. destruct (L k) as [mprs Hm]. rewrite Hm in Hk.
    destruct (oh1 !! k) eqn:E; [|discriminate]. injection Hk as <-.
    rewrite mpr_update_neighborID. eauto.
  - destruct (L (n_id n)) as [mprs Hm]. rewrite Hm. unfold oh1.
    rewrite updateOneHopNeighbors_lookup, decide_False by congruence. rewrite I2. done.
  - intros k. unfold hello_twoHop, updateTwoHopNeighbors. rewrite dom_insert_L.
    rewrite elem_of_union, elem_of_singleton. intros Hk.
    apply elem_of_dom. destruct (L k) as [mprs Hm]. rewrite Hm. unfold oh1.
    rewrite updateOneHopNeighbors_lookup.
    destruct (decide (k = h_src m)); [done|].
    destruct Hk as [|Hk]; [done|]. apply I3, elem_of_dom in Hk. destruct Hk as [e ->]. done.
  - intros k v.
    destruct (bool_decide _), (existsb _ _); cbn; try apply I4.
    + rewrite lookup_delete_Some. intros [_ Hk]. eauto.
    + rewrite lookup_insert_Some. intros [[-> <-]|[_ Hk]]; eauto.
Qed.

Lemma handleHello_ord_inv ord n m n' :
  node_inv n -> h_src m <> n_id n ->
  handleHello_ord ord n m = Some n' -> node_inv n'.
Proof.
  intros Hi Hsrc. unfold handleHello_ord.
  assert (Hs : node_inv (set_helloSequences n (<[h_src m := h_seq m]> (helloSequences n)))).
  { eapply node_inv_frame; [|exact Hi]. unfold same_nbrs; cbn; repeat split. }
  destruct (helloSequences n !! h_src m).
  - destruct (h_seq m <=? _).
    + intros H; injection H as <-; exact Hi.
    + apply handleHello_update_inv; [exact Hs|exact Hsrc].
  - apply handleHello_update_inv; [exact Hs|exact Hsrc].
Qed.

Lemma expire_inv n : node_inv n -> node_inv (expire n).
Proof.
  intros (I1 & I2 & I3 & I4). unfold node_inv, expire; cbn.
  split; [|split; [|split]].
  - intros k e. rewrite map_lookup_filter_Some. intros [Hk _]. eauto.
  - rewrite map_lookup_filter_None. left. exact I2.
  - intros k. rewrite !elem_of_dom. intros [s Hs].
    apply map_lookup_filter_Some in Hs as [Hs Hexp]. cbn in Hexp.
    assert (Hk : k ∈ dom (twoHopNeighbors n)) by (apply elem_of_dom; eauto).
    apply I3, elem_of_dom in Hk as [e He]. rewrite He in Hexp.
    exists e. apply map_lookup_filter_Some. split; [exact He|]. cbn.
    apply Z.leb_gt in Hexp. lia.
  - exact I4.
Qed.

Lemma step_n_id n n' : step n n' -> n_id n' = n_id n.
Proof.
  destruct 1.
  - revert H1. unfold handleHello_ord, handleHello_update.
    repeat (case_match; try discriminate); intros Hs; injection Hs as <-; reflexivity.
  - exact (eq_trans (proj1 (same_nbrs_handleTC _ _)) (proj1 (same_nbrs_log_input _ _))).
  - exact (eq_trans (proj1 (same_nbrs_handleData _ _)) (proj1 (same_nbrs_log_input _ _))).
  - apply same_nbrs_sendHello_ord.
  - apply same_nbrs_sendTC.
  - apply same_nbrs_originate.
  - reflexivity.
  - apply same_nbrs_routes.
  - reflexivity.
Qed.

Lemma step_inv n n' : node_inv n -> step n n' -> node_inv n'.
Proof.
  intros Hi. destruct 1.
  - eapply handleHello_ord_inv; [| |exact H1].
    + eapply node_inv_frame; [apply same_nbrs_log_input|exact Hi].
    + exact H.
  - eapply node_inv_frame; [apply same_nbrs_handleTC|].
    eapply node_inv_frame; [apply same_nbrs_log_input|exact Hi].
  - eapply node_inv_frame; [apply same_nbrs_handleData|].
    eapply node_inv_frame; [apply same_nbrs_log_input|exact Hi].
  - eapply node_inv_frame; [apply same_nbrs_sendHello_ord|exact Hi].
  - eapply node_inv_frame; [apply same_nbrs_sendTC|exact Hi].
  - eapply node_inv_frame; [apply same_nbrs_originate|exact Hi].
  - apply expire_inv, Hi.
  - eapply node_inv_frame; [apply same_nbrs_routes|exact Hi].
  - eapply node_inv_frame; [apply same_nbrs_tick|exact Hi].
Qed.

Lemma reachable_inv self nm n : reachable self nm n -> n_id n = self /\ node_inv n.
Proof.
  induction 1 as [|n n' _ [Hid Hi] Hs].
  - split; [reflexivity|]. unfold node_inv; cbn. split; [|split; [|split]].
    + intros k e; rewrite lookup_empty; discriminate.
    + apply lookup_empty.
    + rewrite dom_empty_L. set_solver.
    + intros k v; rewrite lookup_empty; discriminate.
  - split; [rewrite (step_n_id _ _ Hs); exact Hid|]. eapply step_inv; eauto.
Qed.

Lemma hello_buckets_fold ord u b p :
  fold_left (fun acc (kv : NodeID * OneHopNeighborEntry) =>
      let '(uni, bi, mp) := acc in
      let o := kv.2 in
      match state o with
      | Unidirectional => (uni ++ [neighborID o], bi, mp)
      | Bidirectional => (uni, bi ++ [neighborID o], mp)
      | MPR => (uni, bi, mp ++ [neighborID o])
      end) ord (u, b, p)
  = (u ++ bucket Unidirectional ord, b ++ bucket Bidirectional ord, p ++ bucket MPR ord).
Proof.
  revert u b p. induction ord as [|[k e] rest IH]; intros u b p.
  - cbn. rewrite !app_nil_r. reflexivity.
  - cbn [fold_left]. unfold bucket. rewrite !filter_cons. cbn.
    destruct (state e); cbn; rewrite IH; unfold bucket; rewrite <- !app_assoc; reflexivity.
Qed.

Lemma hello_buckets_eq ord :
  hello_buckets ord = (bucket Unidirectional ord, bucket Bidirectional ord, bucket MPR ord).
Proof. unfold hello_buckets. rewrite hello_buckets_fold. reflexivity. Qed.

Lemma elem_of_bucket (oh : gmap NodeID OneHopNeighborEntry) ord s k :
  (forall k e, oh !! k = Some e -> neighborID e = k) ->
  ord ≡ₚ map_to_list oh ->
  k ∈ bucket s ord <-> exists e, oh !! k = Some e /\ state e = s.
Proof.
  intros I1 Hp. unfold bucket. rewrite list_elem_of_fmap. split.
  - intros ([k' e] & -> & Hin). apply list_elem_of_filter in Hin as [Hs Hin].
    rewrite Hp, elem_of_map_to_list in Hin. cbn in *.
    apply NeighborState_eqb_true in Hs. rewrite (I1 _ _ Hin). eauto.
  - intros (e & He & Hs). exists (k, e). cbn. split; [symmetry; eauto|].
    apply list_elem_of_filter. split; [apply NeighborState_eqb_true; exact Hs|].
    rewrite Hp, elem_of_map_to_list. exact He.
Qed.

Lemma tc_doFwd_iff n m :
  node_inv n -> tc_doFwd n m = bool_decide (tc_fromnbr m ∈ dom (msSet n)).
Proof.
  intros (_ & _ & _ & I4). unfold tc_doFwd.
  apply eq_bool_prop_intro. rewrite Is_true_true, existsb_exists, bool_decide_spec.
  rewrite elem_of_dom. split.
  - intros ([k v] & Hin & Hv). apply Nat.eqb_eq in Hv. cbn in Hv. subst v.
    apply list_elem_of_In, elem_of_map_to_list in Hin. pose proof (I4 _ _ Hin) as Hk. rewrite Hk in Hin |- *. exists k; exact Hin.
  - intros [v Hv]. pose proof (I4 _ _ Hv) as ->. exists (tc_fromnbr m, tc_fromnbr m).
    split; [apply list_elem_of_In, elem_of_map_to_list; exact Hv|apply Nat.eqb_refl].
Qed.

(** C10: in every node state reachable from [NewNode] by the node's steps
    (handlers, emissions, expiry sweeps, routing rebuilds, ticks), every key
    of [twoHopNeighbors] is a key of [oneHopNeighbors]. *)
Theorem twoHop_keys_subset_oneHop_keys :
  forall (self : NodeID) (nm : NodeMsg) (n : Node),
    reachable self nm n -> dom (twoHopNeighbors n) ⊆ dom (oneHopNeighbors n).
Proof.
  intros self nm n Hr. destruct (reachable_inv _ _ _ Hr) as (_ & _ & _ & I3 & _). exact I3.
Qed.

(** C6: in every HELLO a reachable node emits, the Unidirectional,
    Bidirectional and MPR lists are pairwise disjoint, do not contain the
    node's own id, their union is the key set of the one-hop table, and each
    neighbor is in the list of its current state. *)
Theorem sendHello_partition :
  forall (self : NodeID) (nm : NodeMsg) (n : Node) (ord : list (NodeID * OneHopNeighborEntry)),
    reachable self nm n ->
    ord ≡ₚ map_to_list (oneHopNeighbors n) ->
    let h := helloMessage_ord ord n in
    output (sendHello_ord ord n) = output n ++ [MHello h] /\
    h_src h = self /\
    (forall k, ~ (k ∈ unidir h /\ k ∈ bidir h)) /\
    (forall k, ~ (k ∈ unidir h /\ k ∈ mpr h)) /\
    (forall k, ~ (k ∈ bidir h /\ k ∈ mpr h)) /\
    (self ∉ unidir h) /\ (self ∉ bidir h) /\ (self ∉ mpr h) /\
    (forall k, (k ∈ unidir h) \/ (k ∈ bidir h) \/ (k ∈ mpr h) <-> k ∈ dom (oneHopNeighbors n)) /\
    (forall k e, oneHopNeighbors n !! k = Some e ->
       (k ∈ unidir h <-> state e = Unidirectional) /\
       (k ∈ bidir h <-> state e = Bidirectional) /\
       (k ∈ mpr h <-> state e = MPR)).
Proof.
  intros self nm n ord Hr Hp h.
  destruct (reachable_inv _ _ _ Hr) as (Hid & I1 & I2 & _ & _).
  assert (Hh : h = mkHello (n_id n) (bucket Unidirectional ord) (bucket Bidirectional ord)
                     (bucket MPR ord) (helloSequenceNum n)).
  { unfold h, helloMessage_ord. rewrite hello_buckets_eq. reflexivity. }
  assert (B : forall s k, k ∈ bucket s ord <-> exists e, oneHopNeighbors n !! k = Some e /\ state e = s)
    by (intros; apply elem_of_bucket; assumption).
  split; [reflexivity|].
  rewrite Hh; cbn [h_src unidir bidir mpr]. split; [exact Hid|].
  split; [|split; [|split]].
  1-3: intros k [H1 H2]; apply B in H1 as (e1 & E1 & S1); apply B in H2 as (e2 & E2 & S2);
    rewrite E1 in E2; injection E2 as <-; congruence.
  split; [|split; [|split]].
  1-3: rewrite B; intros (e & E & _); congruence.
  split.
  - intros k. rewrite !B, elem_of_dom. split.
    + intros [(e & E & _)|[(e & E & _)|(e & E & _)]]; rewrite E; eauto.
    + intros [e E]. destruct (state e) eqn:S; eauto.
  - intros k e E. rewrite !B.
    split; [|split]; (split; [intros (e' & E' & S'); congruence|intros S'; exists e; split; assumption]).
Qed.

(** C7: a reachable node receiving a TC (logged to its in log, then handled)
    drops a TC it originated without any further change; any other TC is
    re-emitted, with [fromNeighbor] set to the node's id, iff its
    [fromNeighbor] is a key of [msSet]. *)
Theorem handleTC_forwarding :
  forall (self : NodeID) (nm : NodeMsg) (n : Node) (m : TCMessage),
    reachable self nm n ->
    let n0 := log_input n (MTC m) in
    (tc_src m = self -> handleTC n0 m = n0) /\
    (tc_src m <> self ->
     let fwd := if bool_decide (tc_fromnbr m ∈ dom (msSet n))
                then [MTC (mkTC (tc_src m) self (tc_seq m) (ms m))] else [] in
     output (handleTC n0 m) = output n ++ fwd /\
     outputLog (handleTC n0 m) = outputLog n ++ fwd).
Proof.
  intros self nm n m Hr n0.
  destruct (reachable_inv _ _ _ Hr) as (Hid & Hi).
  assert (Hi0 : node_inv n0) by (eapply node_inv_frame; [apply same_nbrs_log_input|exact Hi]).
  split.
  - intros Hs. unfold handleTC. cbn [n0 n_id log_input set_inputLog].
    rewrite Hs, Hid, Nat.eqb_refl. reflexivity.
  - intros Hs fwd. unfold handleTC.
    replace (Nat.eqb (tc_src m) (n_id n0)) with false
      by (symmetry; apply Nat.eqb_neq; cbn; congruence).
    match goal with |- context [tc_doFwd ?x m] => set (n1 := x) end.
    assert (Hi1 : node_inv n1).
    { eapply node_inv_frame; [|exact Hi0]. unfold same_nbrs, n1; cbn; repeat split. }
    rewrite (tc_doFwd_iff _ _ Hi1). unfold fwd, n1, n0; cbn.
    rewrite Hid. destruct (bool_decide _); cbn; rewrite ?app_nil_r; split; reflexivity.
Qed.

(* ------------------------------------------------------------------ *)
(** ** Concrete runs *)

Lemma recv_hello_step n m :
  h_src m <> n_id n ->
  is_Some (handleHello_ord (map_to_list (hello_twoHop n m)) (log_input n (MHello m)) m) ->
  step n (recv_hello n m).
Proof.
  intros Hs [n' Hn']. unfold recv_hello. rewrite Hn'.
  eapply step_recv_hello; [exact Hs|reflexivity|exact Hn'].
Qed.

Lemma rebuild_step n : routesChanged n = true -> step n (rebuild n).
Proof. intros H. apply step_routes; [exact H|reflexivity|reflexivity|intros; reflexivity]. Qed.

Lemma demo_n1_reachable : reachable 0 demo_nm demo_n1.
Proof.
  eapply reach_step; [apply reach_init|]. apply recv_hello_step; [cbn; lia|].
  vm_compute. eexists. reflexivity.
Qed.

Lemma demo_n2_reachable : reachable 0 demo_nm demo_n2.
Proof.
  eapply reach_step; [apply demo_n1_reachable|]. apply rebuild_step. vm_compute. reflexivity.
Qed.

Lemma demo8_n_reachable : reachable 0 demo8_nm demo8_n.
Proof.
  eapply reach_step; [|apply rebuild_step; vm_compute; reflexivity].
  eapply reach_step; [|apply recv_hello_step; [vm_compute; lia|vm_compute; eexists; reflexivity]].
  eapply reach_step; [|apply recv_hello_step; [cbn; lia|vm_compute; eexists; reflexivity]].
  apply reach_init.
Qed.

(** C10 at the state of node 0 after its first HELLO. *)
Lemma twoHop_keys_subset_oneHop_keys_witness :
  reachable 0 demo_nm demo_n1 /\ dom (twoHopNeighbors demo_n1) ⊆ dom (oneHopNeighbors demo_n1).
Proof.
  split; [exact demo_n1_reachable|].
  exact (twoHop_keys_subset_oneHop_keys 0 demo_nm demo_n1 demo_n1_reachable).
Defined.

(** C6 at the HELLO node 0 sends after hearing node 1. *)
Lemma sendHello_partition_witness :
  reachable 0 demo_nm demo_n1 /\
  map_to_list (oneHopNeighbors demo_n1) ≡ₚ map_to_list (oneHopNeighbors demo_n1) /\
  forall k, (k ∈ unidir (helloMessage_ord (map_to_list (oneHopNeighbors demo_n1)) demo_n1))
    \/ (k ∈ bidir (helloMessage_ord (map_to_list (oneHopNeighbors demo_n1)) demo_n1))
    \/ (k ∈ mpr (helloMessage_ord (map_to_list (oneHopNeighbors demo_n1)) demo_n1))
    <-> k ∈ dom (oneHopNeighbors demo_n1).
Proof.
  split; [exact demo_n1_reachable|]. split; [reflexivity|].
  destruct (sendHello_partition 0 demo_nm demo_n1 _ demo_n1_reachable (reflexivity _))
    as (_ & _ & _ & _ & _ & _ & _ & _ & Hu & _).
  exact Hu.
Defined.

(** C7 at node 0 after its first HELLO, receiving a TC of node 3 sent by node 1. *)
Lemma handleTC_forwarding_witness :
  reachable 0 demo_nm demo_n1 /\ (3%nat <> 0%nat) /\
  output (handleTC (log_input demo_n1 (MTC (mkTC 3 1 0 [4%nat]))) (mkTC 3 1 0 [4%nat]))
  = output demo_n1 ++ (if bool_decide (1%nat ∈ dom (msSet demo_n1))
                       then [MTC (mkTC 3 0 0 [4%nat])] else []).
Proof.
  split; [exact demo_n1_reachable|]. split; [lia|].
  exact (proj1 (proj2 (handleTC_forwarding 0 demo_nm demo_n1 (mkTC 3 1 0 [4%nat])
                          demo_n1_reachable) ltac:(cbn; lia))).
Defined.

(** C3 fails: node 0 stores a distance-2 route to node 2 through node 1,
    whose one-hop state is Unidirectional (the two-hop pass of
    [calculateRoutingTable] does not look at the one-hop state). *)
Lemma routes_via_unidirectional_neighbor :
  reachable 0 demo_nm demo_n2 /\
  oneHopNeighbors demo_n2 !! 1%nat = Some (mkOneHop 1 Unidirectional 15) /\
  routingTable demo_n2 !! 2%nat = Some (mkRoutingEntry 2 1 2).
Proof.
  split; [exact demo_n2_reachable|]. vm_compute. split; reflexivity.
Qed.

(** C8 fails: when node 0 originates its DATA message to its bidirectional
    neighbor 1, the message is written to the channel but its line goes to
    the in log, and the out log is unchanged. *)
Lemma sendData_logs_to_in_log :
  reachable 0 demo8_nm demo8_n /\
  step demo8_n (originate demo8_n) /\
  output (originate demo8_n) = output demo8_n ++ [MData (mkData 0 1 1 0 "hi"%string)] /\
  outputLog (originate demo8_n) = outputLog demo8_n /\
  inputLog (originate demo8_n) = inputLog demo8_n ++ [MData (mkData 0 1 1 0 "hi"%string)].
Proof.
  split; [exact demo8_n_reachable|]. split; [apply step_originate; vm_compute; reflexivity|].
  vm_compute. split; [reflexivity|split; reflexivity].
Qed.

(** C9 fails: a file whose last record has no trailing newline loses that
    record; here it is the unsorted one, so the unsorted input is accepted
    and the oracle holds only the first record.  With the newline the same
    records are rejected. *)
Lemma NewNetworkTypology_drops_unterminated_line :
  parseLinkState "3 UP 0 1"%string = inr (mkLinkState 3 UP 0 1) /\
  NewNetworkTypology (String.append "5 UP 0 1"%string (String.append nl "3 UP 0 1"%string))
  = TopoOk (mkNetworkTypology {[0%nat := {[1%nat := mkLink 0 1 [mkLinkState 5 UP 0 1]]}]}) /\
  NewNetworkTypology (String.append "5 UP 0 1"%string
                        (String.append nl (String.append "3 UP 0 1"%string nl)))
  = TopoErr "entries in input must be sorted by increasing time"%string.
Proof. vm_compute. split; [reflexivity|split; reflexivity]. Qed.

(* ------------------------------------------------------------------ *)
(** ** String forms and parsing *)

Lemma digit_char_spec (d : Z) :
  0 <= d <= 9 ->
  digit_val (digit_char d) = Some d /\ Ascii.eqb (digit_char d) " "%char = false.
Proof.
  intros Hd. assert (d = 0 \/ d = 1 \/ d = 2 \/ d = 3 \/ d = 4 \/ d = 5 \/ d = 6 \/
                     d = 7 \/ d = 8 \/ d = 9) as Hc by lia.
  repeat destruct Hc as [->|Hc]; try subst d; split; reflexivity.
Qed.

Lemma udigits_digits_val (f : nat) (z : Z) (acc : string) (a : Z) :
  0 <= z < 10 ^ Z.of_nat f ->
  exists k, 0 <= k /\ digits_val (udigits f z acc) a = digits_val acc (a * 10 ^ k + z).
Proof.
  revert z acc a. induction f as [|f IH]; intros z acc a Hz.
  - cbn in Hz. assert (z = 0) as -> by lia. exists 0. split; [lia|]. cbn [udigits]. f_equal. lia.
  - rewrite Nat2Z.inj_succ, Z.pow_succ_r in Hz by lia. cbn [udigits].
    destruct (z <? 10) eqn:E.
    + apply Z.ltb_lt in E. exists 1. split; [lia|]. cbn [digits_val].
      rewrite (proj1 (digit_char_spec z ltac:(lia))). try (f_equal; lia).
    + apply Z.ltb_ge in E.
      destruct (IH (z / 10) (String (digit_char (z mod 10)) acc) a) as (k & Hk & H).
      { split; [apply Z.div_pos; lia|]. apply Z.div_lt_upper_bound; lia. }
      exists (k + 1). split; [lia|]. rewrite H. cbn [digits_val].
      rewrite (proj1 (digit_char_spec (z mod 10) ltac:(pose proof (Z.mod_pos_bound z 10); lia))).
      f_equal. rewrite Z.pow_add_r by lia. pose proof (Z.div_mod z 10). lia.
Qed.

Definition starts_with_digit (s : string) : Prop :=
  exists d r, s = String (digit_char d) r /\ 0 <= d <= 9.

Lemma udigits_start (f : nat) (z : Z) (acc : string) :
  0 <= z -> (starts_with_digit acc \/ (0 < f)%nat) -> starts_with_digit (udigits f z acc).
Proof.
  revert z acc. induction f as [|f IH]; intros z acc Hz H.
  - cbn. destruct H as [H|H]; [exact H|lia].
  - cbn [udigits]. destruct (z <? 10) eqn:E.
    + apply Z.ltb_lt in E. exists z, acc. split; [reflexivity|lia].
    + apply IH; [apply Z.div_pos; lia|]. left.
      exists (z mod 10), acc. pose proof (Z.mod_pos_bound z 10). split; [reflexivity|lia].
Qed.

Lemma udigits_no_space (f : nat) (z : Z) (acc : string) :
  0 <= z -> no_space acc = true -> no_space (udigits f z acc) = true.
Proof.
  revert z acc. induction f as [|f IH]; intros z acc Hz H; [exact H|].
  cbn [udigits]. destruct (z <? 10) eqn:E.
  - apply Z.ltb_lt in E. cbn. rewrite (proj2 (digit_char_spec z ltac:(lia))). exact H.
  - apply IH; [apply Z.div_pos; lia|]. cbn.
    rewrite (proj2 (digit_char_spec (z mod 10) ltac:(pose proof (Z.mod_pos_bound z 10); lia))).
    exact H.
Qed.

Lemma Atoi_digit_start (d : Z) (r : string) :
  0 <= d <= 9 ->
  Atoi (String (digit_char d) r) =
    match digits_val (String (digit_char d) r) 0 with
    | Some v => if (int_min <=? v) && (v <=? int_max) then Some v else None
    | None => None
    end.
Proof.
  intros Hd. assert (d = 0 \/ d = 1 \/ d = 2 \/ d = 3 \/ d = 4 \/ d = 5 \/ d = 6 \/
                     d = 7 \/ d = 8 \/ d = 9) as Hc by lia.
  repeat destruct Hc as [->|Hc]; try subst d; reflexivity.
Qed.

Lemma format_int_no_space (z : Z) : no_space (format_int z) = true.
Proof.
  unfold format_int. destruct (z <? 0) eqn:E.
  - apply Z.ltb_lt in E. cbn [no_space]. apply udigits_no_space; [lia|reflexivity].
  - apply Z.ltb_ge in E. apply udigits_no_space; [lia|reflexivity].
Qed.

Lemma split_sp_no_space (a : string) : no_space a = true -> split_sp a = [a].
Proof.
  induction a as [|c a IH]; [reflexivity|]. cbn [no_space split_sp].
  intros H. apply andb_prop in H as [Hc Ha]. apply negb_true_iff in Hc.
  rewrite Hc, IH by exact Ha. reflexivity.
Qed.

Lemma split_sp_app_space (a b : string) :
  no_space a = true -> split_sp (String.append a (String " "%char b)) = a :: split_sp b.
Proof.
  induction a as [|c a IH]; [reflexivity|]. cbn [no_space].
  intros H. apply andb_prop in H as [Hc Ha]. apply negb_true_iff in Hc.
  change (String.append (String c a) (String " "%char b))
    with (String c (String.append a (String " "%char b))).
  cbn [split_sp]. rewrite Hc, IH by exact Ha. reflexivity.
Qed.

Lemma NodeID_String_label (f : NodeID) :
  (f <= 9)%nat ->
  NodeID_String f = String (digit_char (Z.of_nat f)) EmptyString /\
  is_label (NodeID_String f) = true /\ Atoi (NodeID_String f) = Some (Z.of_nat f).
Proof.
  intros Hf. do 10 (destruct f as [|f]; [split; [reflexivity|split; reflexivity]|]). lia.
Qed.

Lemma Atoi_format_int_gen (z : Z) :
  int_min <= z <= int_max -> Atoi (format_int z) = Some z.
Proof.
  intros Hz. unfold int_min, int_max in Hz. unfold format_int. destruct (z <? 0) eqn:E.
  - apply Z.ltb_lt in E.
    destruct (udigits_start 20 (- z) EmptyString ltac:(lia) ltac:(right; lia)) as (d & r & Hs & Hd).
    destruct (udigits_digits_val 20 (- z) EmptyString 0) as (k & _ & Hv).
    { split; [lia|]. cbn. lia. }
    unfold Atoi. cbv beta iota. rewrite Hs. rewrite <- Hs, Hv. cbn [digits_val].
    replace (0 * 10 ^ k + - z) with (- z) by lia.
    replace (- - z) with z by lia. unfold int_min, int_max.
    replace ((- 2 ^ 63 <=? z) && (z <=? 2 ^ 63 - 1)) with true; [reflexivity|].
    symmetry. apply andb_true_intro. split; apply Z.leb_le; lia.
  - apply Z.ltb_ge in E.
    destruct (udigits_start 20 z EmptyString E ltac:(right; lia)) as (d & r & Hs & Hd).
    destruct (udigits_digits_val 20 z EmptyString 0) as (k & _ & Hv).
    { split; [lia|]. cbn. lia. }
    rewrite Hs, Atoi_digit_start by exact Hd. rewrite <- Hs, Hv. cbn [digits_val].
    replace (0 * 10 ^ k + z) with z by lia. unfold int_min, int_max.
    replace ((- 2 ^ 63 <=? z) && (z <=? 2 ^ 63 - 1)) with true; [reflexivity|].
    symmetry. apply andb_true_intro. split; apply Z.leb_le; lia.
Qed.

(** [strconv.Atoi] reads back every 64-bit integer written with [%d]. *)
Theorem Atoi_format_int (z : Z) :
  int_min <= z <= int_max -> Atoi (format_int z) = Some z.
Proof. exact (Atoi_format_int_gen z). Qed.

Lemma append_space (x : string) : String.append " " x = String " "%char x.
Proof. reflexivity. Qed.

Lemma LinkStatus_String_no_space (s : LinkStatus) : no_space (LinkStatus_String s) = true.
Proof. destruct s; reflexivity. Qed.

Lemma parseLinkState_String_gen (ls : LinkState) :
  0 <= time ls <= int_max -> (fromNode ls <= 9)%nat -> (toNode ls <= 9)%nat ->
  parseLinkState (LinkState_String ls) = inr ls.
Proof.
  destruct ls as [t s f d]; cbn [time status fromNode toNode]. intros Ht Hf Hd.
  unfold LinkState_String; cbn [time status fromNode toNode]. rewrite !append_space.
  unfold parseLinkState.
  rewrite split_sp_app_space, split_sp_app_space, split_sp_app_space, split_sp_no_space
    by (apply format_int_no_space || apply LinkStatus_String_no_space).
  rewrite Atoi_format_int_gen by (unfold int_min, int_max in *; lia).
  replace (t <? 0) with false by (symmetry; apply Z.ltb_ge; lia).
  destruct (NodeID_String_label f Hf) as (_ & Lf & Af).
  destruct (NodeID_String_label d Hd) as (_ & Ld & Ad).
  rewrite Lf, Ld, Af, Ad. cbn [negb]. rewrite !Nat2Z.id. destruct s; reflexivity.
Qed.

(** [parseLinkState] reads back the String form of every link state whose
    tick is a non-negative int and whose two labels are single digits. *)
Theorem parseLinkState_String (ls : LinkState) :
  0 <= time ls <= int_max -> (fromNode ls <= 9)%nat -> (toNode ls <= 9)%nat ->
  parseLinkState (LinkState_String ls) = inr ls.
Proof. exact (parseLinkState_String_gen ls). Qed.

Lemma parseLinkState_String_witness :
  0 <= time (mkLinkState 120 DOWN 3 4) <= int_max /\ (fromNode (mkLinkState 120 DOWN 3 4) <= 9)%nat /\
  (toNode (mkLinkState 120 DOWN 3 4) <= 9)%nat /\
  parseLinkState (LinkState_String (mkLinkState 120 DOWN 3 4)) = inr (mkLinkState 120 DOWN 3 4).
Proof.
  assert (H1 : 0 <= time (mkLinkState 120 DOWN 3 4) <= int_max) by (cbn; unfold int_max; lia).
  assert (H2 : (fromNode (mkLinkState 120 DOWN 3 4) <= 9)%nat) by (cbn; lia).
  assert (H3 : (toNode (mkLinkState 120 DOWN 3 4) <= 9)%nat) by (cbn; lia).
  split; [exact H1|split; [exact H2|split; [exact H3|]]].
  exact (parseLinkState_String _ H1 H2 H3).
Defined.

Lemma Atoi_format_int_witness :
  int_min <= int_min <= int_max /\ Atoi (format_int int_min) = Some int_min.
Proof.
  assert (H : int_min <= int_min <= int_max) by (unfold int_min, int_max; lia).
  split; [exact H|exact (Atoi_format_int _ H)].
Defined.

Lemma digit_char_cases (c : Ascii.ascii) (v : Z) :
  digit_val c = Some v -> c = digit_char v /\ 0 <= v <= 9.
Proof.
  unfold digit_val. destruct ((48 <=? Ascii.nat_of_ascii c)%nat && (Ascii.nat_of_ascii c <=? 57)%nat) eqn:E;
    [|discriminate].
  apply andb_prop in E as [E1 E2]. apply Nat.leb_le in E1, E2.
  intros H. injection H as <-. split; [|lia].
  unfold digit_char. rewrite <- (Ascii.ascii_nat_embedding c) at 1. f_equal. lia.
Qed.

Lemma Atoi_range (s : string) (z : Z) : Atoi s = Some z -> int_min <= z <= int_max.
Proof.
  unfold Atoi. destruct (match s with
                         | String "-"%char r => (true, r)
                         | String "+"%char r => (false, r)
                         | _ => (false, s) end) as [neg body].
  destruct body as [|c r]; [discriminate|].
  destruct (digits_val (String c r) 0) as [v|]; [|discriminate].
  destruct ((int_min <=? (if neg then - v else v)) && ((if neg then - v else v) <=? int_max)) eqn:E;
    [|discriminate].
  intros H. injection H as <-. apply andb_prop in E as [E1 E2].
  apply Z.leb_le in E1, E2. lia.
Qed.

Lemma label_value (s : string) (a : Z) :
  is_label s = true -> Atoi s = Some a -> 0 <= a <= 9.
Proof.
  unfold is_label. destruct s as [|c [|c' r]]; try discriminate.
  destruct (digit_val c) as [v|] eqn:Hv; [|discriminate]. intros _.
  destruct (digit_char_cases c v Hv) as [-> Hr].
  rewrite Atoi_digit_start by exact Hr. cbn [digits_val].
  rewrite (proj1 (digit_char_spec v Hr)). cbn [digits_val].
  unfold int_min, int_max.
  destruct ((- 2 ^ 63 <=? 0 * 10 + v) && (0 * 10 + v <=? 2 ^ 63 - 1)); [|discriminate].
  intros H. injection H as <-. lia.
Qed.

Lemma parseLinkState_accepts_canonical_gen (line : string) (ls : LinkState) :
  parseLinkState line = inr ls ->
  0 <= time ls <= int_max /\ (fromNode ls <= 9)%nat /\ (toNode ls <= 9)%nat /\
  parseLinkState (LinkState_String ls) = inr ls.
Proof.
  intros H.
  assert (B : 0 <= time ls <= int_max /\ (fromNode ls <= 9)%nat /\ (toNode ls <= 9)%nat).
  { revert H. unfold parseLinkState.
    destruct (split_sp line) as [|T [|S [|F [|D [|? ?]]]]]; try discriminate.
    destruct (Atoi T) as [tm|] eqn:AT; [|discriminate].
    destruct (tm <? 0) eqn:Neg; [discriminate|]. apply Z.ltb_ge in Neg.
    destruct (if String.eqb S "UP" then Some UP else if String.eqb S "DOWN" then Some DOWN else None)
      as [st|]; [|discriminate].
    destruct (is_label F) eqn:LF; [|discriminate]. destruct (is_label D) eqn:LD; [|discriminate].
    cbn [negb]. destruct (Atoi F) as [a|] eqn:AF; [|discriminate].
    destruct (Atoi D) as [b|] eqn:AD; [|discriminate].
    intros Hs. injection Hs as <-. cbn [time fromNode toNode].
    pose proof (Atoi_range _ _ AT). pose proof (label_value _ _ LF AF).
    pose proof (label_value _ _ LD AD). lia. }
  destruct B as (B1 & B2 & B3). split; [exact B1|split; [exact B2|split; [exact B3|]]].
  apply parseLinkState_String_gen; assumption.
Qed.

(** Every state [parseLinkState] accepts has a tick in [0, int_max] and two
    single-digit labels, and its own String form parses back to it. *)
Theorem parseLinkState_accepts_canonical (line : string) (ls : LinkState) :
  parseLinkState line = inr ls ->
  0 <= time ls <= int_max /\ (fromNode ls <= 9)%nat /\ (toNode ls <= 9)%nat /\
  parseLinkState (LinkState_String ls) = inr ls.
Proof. exact (parseLinkState_accepts_canonical_gen line ls). Qed.

Lemma parseLinkState_accepts_canonical_witness :
  parseLinkState "007 UP 3 4"%string = inr (mkLinkState 7 UP 3 4) /\
  LinkState_String (mkLinkState 7 UP 3 4) = "7 UP 3 4"%string /\
  parseLinkState (LinkState_String (mkLinkState 7 UP 3 4)) = inr (mkLinkState 7 UP 3 4).
Proof.
  assert (H : parseLinkState "007 UP 3 4"%string = inr (mkLinkState 7 UP 3 4)) by reflexivity.
  split; [exact H|split; [reflexivity|]].
  exact (proj2 (proj2 (proj2 (parseLinkState_accepts_canonical _ _ H)))).
Defined.

Lemma string_append_assoc (x y z : string) :
  String.append (String.append x y) z = String.append x (String.append y z).
Proof.
  induction x as [|c x IH]; [reflexivity|].
  change (String c (String.append (String.append x y) z) = String c (String.append x (String.append y z))).
  rewrite IH. reflexivity.
Qed.

Lemma NodeID_String_no_space (n : NodeID) : no_space (NodeID_String n) = true.
Proof. apply format_int_no_space. Qed.

Lemma split_sp_separated_app (l : list NodeID) (b : string) :
  split_sp (String.append (separatedString l " ") (String " "%char b)) = list_fields l ++ split_sp b.
Proof.
  unfold separatedString. induction l as [|x l IH]; [reflexivity|].
  destruct l as [|y l].
  - cbn [map String.concat]. rewrite split_sp_app_space by apply NodeID_String_no_space.
    reflexivity.
  - change (String.concat " " (map NodeID_String (x :: y :: l)))
      with (String.append (NodeID_String x) (String.append " " (String.concat " " (map NodeID_String (y :: l))))).
    rewrite !string_append_assoc, append_space, split_sp_app_space by apply NodeID_String_no_space.
    rewrite IH. reflexivity.
Qed.

Lemma split_sp_separated (l : list NodeID) : split_sp (separatedString l " ") = list_fields l.
Proof.
  unfold separatedString. induction l as [|x l IH]; [reflexivity|].
  destruct l as [|y l].
  - cbn [map String.concat]. rewrite split_sp_no_space by apply NodeID_String_no_space. reflexivity.
  - change (String.concat " " (map NodeID_String (x :: y :: l)))
      with (String.append (NodeID_String x) (String.append " " (String.concat " " (map NodeID_String (y :: l))))).
    rewrite append_space, split_sp_app_space by apply NodeID_String_no_space.
    rewrite IH. reflexivity.
Qed.

(** The log lines split on spaces into their fields: a HELLO into [*], its
    source, [HELLO UNIDIR], the unidirectional ids, [BIDIR], the
    bidirectional ids, [MPR] and the MPR ids (an empty list leaving one empty
    field); a TC into [*], fromNeighbor, [TC], source, sequence, [MS] and the
    MS ids; a DATA into next hop, fromNeighbor, [DATA], source, destination
    and the fields of its text. *)
Theorem message_String_fields :
  (forall m : HelloMessage,
     split_sp (HelloMessage_String m) =
       ["*"; NodeID_String (h_src m); "HELLO"; "UNIDIR"]%string ++ list_fields (unidir m) ++
       ["BIDIR"%string] ++ list_fields (bidir m) ++ ["MPR"%string] ++ list_fields (mpr m)) /\
  (forall m : TCMessage,
     split_sp (TCMessage_String m) =
       ["*"; NodeID_String (tc_fromnbr m); "TC"; NodeID_String (tc_src m);
        format_int (tc_seq m); "MS"]%string ++ list_fields (ms m)) /\
  (forall m : DataMessage,
     split_sp (DataMessage_String m) =
       [NodeID_String (nxtHop m); NodeID_String (d_fromnbr m); "DATA";
        NodeID_String (d_src m); NodeID_String (d_dst m)]%string ++ split_sp (data m)).
Proof.
  split; [|split]; intros m.
  - unfold HelloMessage_String.
    change (String.append "* " ?x) with (String "*"%char (String " "%char x)).
    change (String.append " HELLO UNIDIR " ?x)
      with (String " "%char (String.append "HELLO" (String " "%char (String.append "UNIDIR" (String " "%char x))))).
    change (String.append " BIDIR " ?x) with (String " "%char (String.append "BIDIR" (String " "%char x))).
    change (String.append " MPR " ?x) with (String " "%char (String.append "MPR" (String " "%char x))).
    change (String "*"%char (String " "%char ?x)) with (String.append "*" (String " "%char x)).
    rewrite split_sp_app_space by reflexivity.
    rewrite split_sp_app_space by apply NodeID_String_no_space.
    rewrite !split_sp_app_space by reflexivity.
    rewrite split_sp_separated_app, split_sp_app_space by reflexivity.
    rewrite split_sp_separated_app, split_sp_app_space by reflexivity.
    rewrite split_sp_separated. reflexivity.
  - unfold TCMessage_String.
    change (String.append "* " ?x) with (String.append "*" (String " "%char x)).
    change (String.append " TC " ?x) with (String " "%char (String.append "TC" (String " "%char x))).
    change (String.append " MS " ?x) with (String " "%char (String.append "MS" (String " "%char x))).
    rewrite append_space.
    rewrite split_sp_app_space by reflexivity.
    rewrite split_sp_app_space by apply NodeID_String_no_space.
    rewrite split_sp_app_space by reflexivity.
    rewrite split_sp_app_space by apply NodeID_String_no_space.
    rewrite split_sp_app_space by apply format_int_no_space.
    rewrite split_sp_app_space by reflexivity.
    rewrite split_sp_separated. reflexivity.
  - unfold DataMessage_String.
    change (String.append " DATA " ?x) with (String " "%char (String.append "DATA" (String " "%char x))).
    rewrite !append_space.
    rewrite split_sp_app_space by apply NodeID_String_no_space.
    rewrite split_sp_app_space by apply NodeID_String_no_space.
    rewrite split_sp_app_space by reflexivity.
    rewrite split_sp_app_space by apply NodeID_String_no_space.
    rewrite split_sp_app_space by apply NodeID_String_no_space.
    reflexivity.
Qed.

(* ------------------------------------------------------------------ *)
(** ** Building the oracle *)

Lemma add_state_lookup2 (ls : gmap NodeID (gmap NodeID Link)) (st : LinkState) (f t : NodeID) :
  lookup2 (add_state ls st) f t =
    if decide (fromNode st = f /\ toNode st = t) then
      Some (match lookup2 ls f t with
            | None => mkLink (fromNode st) (toNode st) [st]
            | Some l => mkLink (link_fromNode l) (link_toNode l) (states l ++ [st])
            end)
    else lookup2 ls f t.
Proof.
  unfold add_state, lookup2.
  destruct (ls !! fromNode st) as [dsts|] eqn:E1; [destruct (dsts !! toNode st) as [dst|] eqn:E2|];
    rewrite !lookup_insert;
    destruct (decide (fromNode st = f)) as [<-|Hf]; cbn;
    rewrite ?E1; cbn; rewrite ?lookup_insert, ?lookup_singleton;
    destruct (decide (toNode st = t)) as [<-|Ht]; cbn; rewrite ?E2;
    repeat case_decide; try tauto; try reflexivity.
Qed.

Lemma fold_add_state_lookup2 (recs : list LinkState) (f t : NodeID) :
  lookup2 (fold_left add_state recs ∅) f t =
    match pair_states f t recs with
    | [] => None
    | sts => Some (mkLink f t sts)
    end.
Proof.
  induction recs as [|st recs IH] using rev_ind; [reflexivity|].
  rewrite fold_left_app. cbn [fold_left]. rewrite add_state_lookup2.
  unfold pair_states in *. rewrite filter_app, IH.
  destruct (decide (fromNode st = f /\ toNode st = t)) as [[<- <-]|Hn].
  - rewrite filter_cons_True by tauto. cbn [filter].
    destruct (filter _ recs) as [|x xs]; reflexivity.
  - rewrite filter_cons_False by tauto. cbn [filter]. rewrite app_nil_r. reflexivity.
Qed.

Lemma sorted_from_spec (c : Z) (recs : list LinkState) :
  sorted_from c recs = true <-> Forall (fun st => c <= time st) recs /\ ticks_sorted recs.
Proof.
  revert c. induction recs as [|st rest IH]; intros c.
  - cbn. split; [intros _; split; constructor|reflexivity].
  - cbn [sorted_from]. rewrite andb_true_iff, Z.leb_le, IH. unfold ticks_sorted. split.
    + intros (Hc & Hf & Hs). split; [constructor; [exact Hc|]|].
      * eapply Forall_impl; [exact Hf|]. cbn. lia.
      * constructor; [exact Hs|]. destruct rest as [|r rest']; constructor.
        apply Forall_inv in Hf. exact Hf.
    + intros [Hf Hs]. apply Forall_cons in Hf as [Hc Hf]. split; [exact Hc|].
      apply Sorted_inv in Hs as [Hs Hhd]. split; [|exact Hs].
      apply Sorted_StronglySorted in Hs; [|intros a b d ??; lia].
      apply Forall_forall. intros r Hr.
      destruct rest as [|r0 rest']; [apply not_elem_of_nil in Hr; done|].
      apply HdRel_inv in Hhd. apply elem_of_cons in Hr as [->|Hr]; [exact Hhd|].
      apply StronglySorted_inv in Hs as [_ Hall].
      pose proof (proj1 (Forall_forall _ _) Hall r Hr). cbn in *. lia.
Qed.

Lemma build_topology_parsed (lines : list string) (recs : list LinkState) (c : Z)
    (ls : gmap NodeID (gmap NodeID Link)) :
  map parseLinkState lines = map inr recs ->
  build_topology lines c ls =
    if sorted_from c recs then TopoOk (mkNetworkTypology (fold_left add_state recs ls))
    else TopoErr "entries in input must be sorted by increasing time"%string.
Proof.
  revert recs c ls. induction lines as [|line lines IH]; intros recs c ls H.
  - destruct recs; [reflexivity|discriminate].
  - destruct recs as [|st recs]; [discriminate|]. cbn in H. injection H as Hl Hr.
    cbn [build_topology sorted_from]. rewrite Hl.
    destruct (time st <? c) eqn:E.
    + apply Z.ltb_lt in E. replace (c <=? time st) with false by (symmetry; apply Z.leb_gt; lia).
      reflexivity.
    + apply Z.ltb_ge in E. replace (c <=? time st) with true by (symmetry; apply Z.leb_le; lia).
      cbn [andb]. rewrite (IH recs). reflexivity. exact Hr.
Qed.

Lemma build_topology_ok (lines : list string) (c : Z) (ls : gmap NodeID (gmap NodeID Link))
    (nt : NetworkTypology) :
  build_topology lines c ls = TopoOk nt ->
  exists recs, map parseLinkState lines = map inr recs /\ sorted_from c recs = true /\
    links nt = fold_left add_state recs ls.
Proof.
  revert c ls. induction lines as [|line lines IH]; intros c ls.
  - cbn. intros H. injection H as <-. exists []. split; [reflexivity|split; reflexivity].
  - cbn [build_topology]. destruct (parseLinkState line) as [e|st] eqn:Hp; [discriminate|].
    destruct (time st <? c) eqn:E; [discriminate|]. apply Z.ltb_ge in E.
    intros H. destruct (IH _ _ H) as (recs & H1 & H2 & H3).
    exists (st :: recs). cbn. rewrite Hp, H1. split; [reflexivity|].
    split; [|exact H3]. apply andb_true_intro. split; [apply Z.leb_le; lia|exact H2].
Qed.

Lemma parsed_time_nonneg (lines : list string) (recs : list LinkState) :
  map parseLinkState lines = map inr recs -> Forall (fun st => 0 <= time st) recs.
Proof.
  revert recs. induction lines as [|line lines IH]; intros recs H.
  - destruct recs; [constructor|discriminate].
  - destruct recs as [|st recs]; [discriminate|]. cbn in H. injection H as Hl Hr.
    constructor; [|exact (IH _ Hr)].
    exact (proj1 (proj1 (parseLinkState_accepts_canonical_gen _ _ Hl))).
Qed.

(** When every newline-terminated line of the file parses, the oracle is
    built exactly when the records are sorted by non-decreasing tick, and
    the sortedness error is returned otherwise. *)
Theorem NewNetworkTypology_sorted_iff (input : string) (recs : list LinkState) :
  map parseLinkState (read_lines input).1 = map inr recs ->
  (ticks_sorted recs ->
     NewNetworkTypology input = TopoOk (mkNetworkTypology (fold_left add_state recs ∅))) /\
  (~ ticks_sorted recs ->
     NewNetworkTypology input = TopoErr "entries in input must be sorted by increasing time"%string).
Proof.
  intros H. unfold NewNetworkTypology. rewrite (build_topology_parsed _ recs 0 ∅ H).
  pose proof (parsed_time_nonneg _ _ H) as Hnn. split.
  - intros Hs. replace (sorted_from 0 recs) with true; [reflexivity|].
    symmetry. apply sorted_from_spec. split; assumption.
  - intros Hs. destruct (sorted_from 0 recs) eqn:E; [|reflexivity].
    apply sorted_from_spec in E. tauto.
Qed.

Lemma NewNetworkTypology_Query_gen (input : string) (nt : NetworkTypology) :
  NewNetworkTypology input = TopoOk nt ->
  exists recs, map parseLinkState (read_lines input).1 = map inr recs /\ ticks_sorted recs /\
    (forall f t, lookup2 (links nt) f t =
       match pair_states f t recs with [] => None | sts => Some (mkLink f t sts) end) /\
    (forall f t tm, Query nt (mkQueryMsg f t tm) =
       status_up (most_recent tm (pair_states f t recs)) false).
Proof.
  unfold NewNetworkTypology. intros H. destruct (build_topology_ok _ _ _ _ H) as (recs & H1 & H2 & H3).
  exists recs. split; [exact H1|]. split; [apply sorted_from_spec in H2; tauto|].
  assert (L : forall f t, lookup2 (links nt) f t =
             match pair_states f t recs with [] => None | sts => Some (mkLink f t sts) end).
  { intros f t. rewrite H3. apply fold_add_state_lookup2. }
  split; [exact L|]. intros f t tm.
  pose proof (L f t) as Lf. unfold lookup2 in Lf. unfold Query. cbn [q_fromNode q_toNode timeQuantum].
  destruct (links nt !! f) as [dsts|]; cbn in Lf;
    [destruct (dsts !! t) as [l|]|];
    destruct (pair_states f t recs) as [|s ss] eqn:E; try discriminate.
  all: try reflexivity.
  injection Lf as ->. unfold isUp. cbn [states]. rewrite isUp_loop_last. reflexivity.
Qed.

(** A built oracle answers a query on (from, to) at tick [t] with the status
    of the last record of that pair, in file order, whose tick is at most
    [t], and DOWN when there is none; the file's records are sorted, so that
    record is the one with the greatest such tick. *)
Theorem NewNetworkTypology_Query (input : string) (nt : NetworkTypology) :
  NewNetworkTypology input = TopoOk nt ->
  exists recs, map parseLinkState (read_lines input).1 = map inr recs /\ ticks_sorted recs /\
    (forall f t, lookup2 (links nt) f t =
       match pair_states f t recs with [] => None | sts => Some (mkLink f t sts) end) /\
    (forall f t tm, Query nt (mkQueryMsg f t tm) =
       status_up (most_recent tm (pair_states f t recs)) false).
Proof. exact (NewNetworkTypology_Query_gen input nt). Qed.

Lemma NewNetworkTypology_sorted_iff_witness :
  map parseLinkState (read_lines demo_topology_input).1 = map inr demo_topology_records /\
  NewNetworkTypology demo_topology_input =
    TopoOk (mkNetworkTypology (fold_left add_state demo_topology_records ∅)).
Proof.
  assert (H : map parseLinkState (read_lines demo_topology_input).1 = map inr demo_topology_records)
    by (vm_compute; reflexivity).
  split; [exact H|]. apply (proj1 (NewNetworkTypology_sorted_iff _ _ H)).
  unfold ticks_sorted, demo_topology_records. repeat constructor; cbn; lia.
Defined.

Lemma NewNetworkTypology_Query_witness :
  NewNetworkTypology demo_topology_input = TopoOk demo_topology /\
  exists recs, map parseLinkState (read_lines demo_topology_input).1 = map inr recs /\
    forall f t tm, Query demo_topology (mkQueryMsg f t tm) =
       status_up (most_recent tm (pair_states f t recs)) false.
Proof.
  assert (H : NewNetworkTypology demo_topology_input = TopoOk demo_topology)
    by (vm_compute; reflexivity).
  split; [exact H|].
  destruct (NewNetworkTypology_Query _ _ H) as (recs & H1 & _ & _ & H4).
  exists recs. split; [exact H1|exact H4].
Defined.

(** The read loop of [NewNetworkTypology] takes the file as its
    newline-terminated lines (none holding a newline) followed by a tail
    without newline, which is never parsed. *)
Theorem read_lines_split (s : string) :
  s = String.append (join_lines (read_lines s).1) (read_lines s).2 /\
  Forall (fun l => no_newline l = true) (read_lines s).1 /\
  no_newline (read_lines s).2 = true.
Proof.
  induction s as [|c r IH]; [split; [reflexivity|split; [constructor|reflexivity]]|].
  cbn [read_lines]. destruct (read_lines r) as [ls rest]. cbn [fst snd] in *.
  destruct IH as (IH1 & IH2 & IH3).
  destruct (Ascii.eqb c "010"%char) eqn:E.
  - apply Ascii.eqb_eq in E. subst c. cbn [fst snd join_lines].
    split; [|split; [constructor; [reflexivity|exact IH2]|exact IH3]].
    change (String "010"%char r = String "010"%char (String.append (join_lines ls) rest)).
    rewrite <- IH1. reflexivity.
  - destruct ls as [|l ls']; cbn [fst snd].
    + split; [cbn in IH1 |- *; rewrite IH1; reflexivity|]. split; [constructor|].
      cbn [no_newline]. rewrite E, IH3. reflexivity.
    + apply Forall_cons in IH2 as [Hl Hls]. split.
      * cbn [join_lines] in IH1 |- *.
        change (String c r = String c (String.append (String.append l (String "010"%char (join_lines ls'))) rest)).
        rewrite <- IH1. reflexivity.
      * split; [|exact IH3]. constructor; [|exact Hls]. cbn [no_newline]. rewrite E, Hl. reflexivity.
Qed.

(* ------------------------------------------------------------------ *)
(** ** The routing rebuild *)

Lemma entry_ok_mono self oh th tes rt rt' d e :
  rt ⊆ rt' -> entry_ok self oh th tes rt d e -> entry_ok self oh th tes rt' d e.
Proof.
  intros Hsub (H1 & H2 & H3 & H4 & H5 & H6 & H7).
  do 6 (split; [assumption|]). intros Hd.
  destruct (H7 Hd) as (O & eO & te & HO & R). exists O, eO, te. split; [|exact R].
  eapply lookup_weaken; eassumption.
Qed.

Lemma route_sound_insert self oh th tes rt d e :
  route_sound self oh th tes rt -> rt !! d = None -> entry_ok self oh th tes rt d e ->
  route_sound self oh th tes (<[d := e]> rt).
Proof.
  intros Hs Hn He d' e'. rewrite lookup_insert. case_decide as Hd.
  - subst d'. intros H. injection H as <-. eapply entry_ok_mono; [apply insert_subseteq, Hn|exact He].
  - intros H. eapply entry_ok_mono; [apply insert_subseteq, Hn|]. exact (Hs _ _ H).
Qed.

Lemma routes_oneHop_spec (ord1 : list (NodeID * OneHopNeighborEntry))
    (oh : gmap NodeID OneHopNeighborEntry) (k : NodeID) :
  (forall k e, oh !! k = Some e -> neighborID e = k) ->
  ord1 ≡ₚ map_to_list oh ->
  routes_oneHop ord1 !! k =
    match oh !! k with
    | Some o => if NeighborState_eqb (state o) Unidirectional then None else Some (mkRoutingEntry k k 1)
    | None => None
    end.
Proof.
  intros I1 Hp. unfold routes_oneHop.
  match goal with |- context [fold_left ?F _ _] => set (G := F) end.
  assert (Hkey : forall kv, kv ∈ ord1 -> oh !! kv.1 = Some kv.2 /\ neighborID kv.2 = kv.1).
  { intros [k' o] Hin. rewrite Hp, elem_of_map_to_list in Hin. cbn. split; [exact Hin|eauto]. }
  assert (Hin : forall l rt, (forall kv, kv ∈ l -> kv ∈ ord1) ->
    (rt !! k = Some (mkRoutingEntry k k 1) \/ exists o, (k, o) ∈ l /\ state o <> Unidirectional) ->
    fold_left G l rt !! k = Some (mkRoutingEntry k k 1)).
  { induction l as [|[k' o'] l IH]; intros rt Hl Hk.
    - destruct Hk as [Hk|(o & Hin & _)]; [exact Hk|apply not_elem_of_nil in Hin; done].
    - cbn [fold_left]. apply IH; [intros kv Hkv; apply Hl, elem_of_cons; right; exact Hkv|].
      destruct (Hkey (k', o')) as [Hk' Hn']; [apply Hl, elem_of_cons; left; reflexivity|].
      cbn [fst snd] in Hk', Hn'. subst k'. unfold G; cbn [snd].
      destruct Hk as [Hk|(o & Hin & Hs)].
      + left. destruct (_ || _); [|exact Hk]. rewrite lookup_insert.
        case_decide as E; [rewrite E; reflexivity|exact Hk].
      + apply elem_of_cons in Hin as [Hin|Hin]; [|right; eauto].
        injection Hin as E1 E2. subst o'. rewrite <- E1. left.
        destruct (state o) eqn:S; cbn [NeighborState_eqb orb]; try congruence;
          apply lookup_insert_eq. }
  assert (Hout : forall l rt, (forall kv, kv ∈ l -> kv ∈ ord1) ->
    (forall o, (k, o) ∈ l -> state o = Unidirectional) ->
    fold_left G l rt !! k = rt !! k).
  { induction l as [|[k' o'] l IH]; intros rt Hl Hk; [reflexivity|].
    cbn [fold_left]. rewrite IH.
    2: { intros kv Hkv; apply Hl, elem_of_cons; right; exact Hkv. }
    2: { intros o Ho. apply Hk, elem_of_cons. right. exact Ho. }
    destruct (Hkey (k', o')) as [Hk' Hn']; [apply Hl, elem_of_cons; left; reflexivity|].
    cbn [fst snd] in Hk', Hn'. subst k'. unfold G; cbn [snd].
    destruct (decide (neighborID o' = k)) as [E|Hne].
    - rewrite (Hk o') by (apply elem_of_cons; left; rewrite E; reflexivity). reflexivity.
    - destruct (_ || _); [apply lookup_insert_ne; exact Hne|reflexivity]. }
  destruct (oh !! k) as [o|] eqn:Ho.
  - destruct (NeighborState_eqb (state o) Unidirectional) eqn:Hs.
    + rewrite Hout, lookup_empty; [reflexivity|intros; assumption|].
      intros o' Ho'. rewrite Hp, elem_of_map_to_list in Ho'.
      rewrite Ho in Ho'. injection Ho' as <-. destruct (state o); done.
    + apply Hin; [intros; assumption|]. right. exists o.
      rewrite Hp, elem_of_map_to_list. split; [assumption|]. intros E. rewrite E in Hs. done.
  - rewrite Hout, lookup_empty; [reflexivity|intros; assumption|].
    intros o' Ho'. rewrite Hp, elem_of_map_to_list in Ho'. congruence.
Qed.

Lemma routes_twoHop_ind (Q : gmap NodeID RoutingEntry -> Prop)
    (ord2 : list (NodeID * gset NodeID)) (rt0 : gmap NodeID RoutingEntry) :
  Q rt0 ->
  (forall rt neighbor s d, (neighbor, s) ∈ ord2 -> d ∈ s -> rt !! d = None -> Q rt ->
     Q (<[d := mkRoutingEntry d neighbor 2]> rt)) ->
  Q (routes_twoHop ord2 rt0).
Proof.
  intros H0 Hstep. unfold routes_twoHop.
  assert (Hgen : forall l rt, (forall kv, kv ∈ l -> kv ∈ ord2) -> Q rt ->
    Q (fold_left (fun rt kv =>
      let '(neighbor, reachableTwoHops) := kv in
      fold_left (fun rt d =>
          match rt !! d with
          | Some _ => rt
          | None => <[d := mkRoutingEntry d neighbor 2]> rt
          end) (elements reachableTwoHops) rt) l rt)).
  { induction l as [|[neighbor s] l IH]; intros rt Hl Hq; [exact Hq|].
    cbn [fold_left]. apply IH; [intros kv Hkv; apply Hl, elem_of_cons; right; exact Hkv|].
    assert (Hin : (neighbor, s) ∈ ord2) by (apply Hl, elem_of_cons; left; reflexivity).
    assert (Hinner : forall ds rt, (forall d, d ∈ ds -> d ∈ s) -> Q rt ->
      Q (fold_left (fun rt d =>
          match rt !! d with
          | Some _ => rt
          | None => <[d := mkRoutingEntry d neighbor 2]> rt
          end) ds rt)).
    { induction ds as [|d ds IHd]; intros rt' Hds Hq'; [exact Hq'|].
      cbn [fold_left]. apply IHd; [intros x Hx; apply Hds, elem_of_cons; right; exact Hx|].
      destruct (rt' !! d) eqn:E; [exact Hq'|].
      apply Hstep with s; [exact Hin|apply Hds, elem_of_cons; left; reflexivity|exact E|exact Hq']. }
    apply Hinner; [intros d Hd; apply elem_of_elements in Hd; exact Hd|exact Hq]. }
  apply Hgen; [intros; assumption|exact H0].
Qed.

Lemma routes_twoHop_covers (ord2 : list (NodeID * gset NodeID)) (rt0 : gmap NodeID RoutingEntry)
    (neighbor : NodeID) (s : gset NodeID) (d : NodeID) :
  (neighbor, s) ∈ ord2 -> d ∈ s -> is_Some (routes_twoHop ord2 rt0 !! d).
Proof.
  unfold routes_twoHop.
  assert (Hmono : forall (ds : list NodeID) (nb : NodeID) (rt : gmap NodeID RoutingEntry) x,
    is_Some (rt !! x) ->
    is_Some (fold_left (fun rt d =>
          match rt !! d with
          | Some _ => rt
          | None => <[d := mkRoutingEntry d nb 2]> rt
          end) ds rt !! x)).
  { induction ds as [|y ds IH]; intros nb rt x Hx; [exact Hx|]. cbn [fold_left]. apply IH.
    destruct (rt !! y) eqn:E; [exact Hx|]. rewrite lookup_insert. case_decide; [eauto|exact Hx]. }
  assert (Hin_inner : forall (ds : list NodeID) (nb : NodeID) (rt : gmap NodeID RoutingEntry) x,
    x ∈ ds ->
    is_Some (fold_left (fun rt d =>
          match rt !! d with
          | Some _ => rt
          | None => <[d := mkRoutingEntry d nb 2]> rt
          end) ds rt !! x)).
  { induction ds as [|y ds IH]; intros nb rt x Hx; [apply not_elem_of_nil in Hx; done|].
    cbn [fold_left]. apply elem_of_cons in Hx as [->|Hx]; [|apply IH; exact Hx].
    apply Hmono. destruct (rt !! y) eqn:E; [eauto|]. rewrite lookup_insert_eq. eauto. }
  assert (Hgen : forall (l : list (NodeID * gset NodeID)) (rt : gmap NodeID RoutingEntry) x,
    is_Some (rt !! x) \/ (exists nb s, (nb, s) ∈ l /\ x ∈ s) ->
    is_Some (fold_left (fun rt kv =>
      let '(neighbor, reachableTwoHops) := kv in
      fold_left (fun rt d =>
          match rt !! d with
          | Some _ => rt
          | None => <[d := mkRoutingEntry d neighbor 2]> rt
          end) (elements reachableTwoHops) rt) l rt !! x)).
  { induction l as [|[nb s'] l IH]; intros rt x Hx.
    - destruct Hx as [Hx|(nb & s' & Hin & _)]; [exact Hx|apply not_elem_of_nil in Hin; done].
    - cbn [fold_left]. apply IH. destruct Hx as [Hx|(nb' & s'' & Hin & Hxs)].
      + left. apply Hmono, Hx.
      + apply elem_of_cons in Hin as [Hin|Hin].
        * injection Hin as -> ->. left. apply Hin_inner, elem_of_elements, Hxs.
        * right. eauto. }
  intros Hin Hd. apply Hgen. right. eauto.
Qed.

Lemma routes_pass_ind (Q : gmap NodeID RoutingEntry -> Prop) (entries : list TopologyEntry)
    (h : Z) (rt0 : gmap NodeID RoutingEntry) :
  Q rt0 ->
  (forall rt te rE, te ∈ entries -> rt !! t_dst te = None -> rt !! originator te = Some rE ->
     distance rE = h -> Q rt ->
     Q (<[t_dst te := mkRoutingEntry (t_dst te) (nextHop rE) (h + 1)]> rt)) ->
  Q (routes_pass entries h rt0).1.
Proof.
  intros H0 Hstep. unfold routes_pass.
  assert (Hgen : forall l rt b, (forall te, te ∈ l -> te ∈ entries) -> Q rt ->
    Q (fold_left (fun acc entry =>
      let '(rt, newEntry) := acc in
      match rt !! t_dst entry with
      | Some _ => acc
      | None =>
          match rt !! originator entry with
          | Some rEntry =>
              if Z.eqb (distance rEntry) h
              then (<[t_dst entry := mkRoutingEntry (t_dst entry) (nextHop rEntry) (h + 1)]> rt, true)
              else acc
          | None => acc
          end
      end) l (rt, b)).1).
  { induction l as [|te l IH]; intros rt b Hl Hq; [exact Hq|].
    cbn [fold_left].
    assert (Hte : te ∈ entries) by (apply Hl, elem_of_cons; left; reflexivity).
    assert (Hl' : forall x, x ∈ l -> x ∈ entries) by (intros; apply Hl, elem_of_cons; right; assumption).
    destruct (rt !! t_dst te) eqn:E1; [apply IH; assumption|].
    destruct (rt !! originator te) as [rE|] eqn:E2; [|apply IH; assumption].
    destruct (Z.eqb (distance rE) h) eqn:E3; [|apply IH; assumption].
    apply IH; [exact Hl'|]. apply Hstep; try assumption. apply Z.eqb_eq, E3. }
  apply Hgen; [intros; assumption|exact H0].
Qed.

Lemma routes_topology_ind (Q : gmap NodeID RoutingEntry -> Prop) (tord : Z -> list TopologyEntry)
    (fuel : nat) (h : Z) (rt0 : gmap NodeID RoutingEntry) :
  Q rt0 ->
  (forall h' rt te rE, h <= h' < h + Z.of_nat fuel -> te ∈ tord h' -> rt !! t_dst te = None ->
     rt !! originator te = Some rE -> distance rE = h' -> Q rt ->
     Q (<[t_dst te := mkRoutingEntry (t_dst te) (nextHop rE) (h' + 1)]> rt)) ->
  Q (routes_topology tord fuel h rt0).
Proof.
  revert h rt0. induction fuel as [|fuel IH]; intros h rt0 H0 Hstep; [exact H0|].
  cbn [routes_topology].
  assert (Hp : Q (routes_pass (tord h) h rt0).1).
  { apply routes_pass_ind; [exact H0|]. intros rt te rE ????. apply Hstep; try assumption. lia. }
  destruct (routes_pass (tord h) h rt0) as [rt' newEntry]. cbn [fst] in Hp.
  destruct newEntry; [|exact Hp].
  apply IH; [exact Hp|]. intros h' rt te rE Hh. apply Hstep. lia.
Qed.

Lemma routes_sound_gen self oh th tt ord1 ord2 tord :
  (forall k e, oh !! k = Some e -> neighborID e = k) -> oh !! self = None ->
  dom th ⊆ dom oh ->
  (forall k s, th !! k = Some s -> self ∉ s) ->
  (forall te, te ∈ topology_entries tt -> t_dst te <> self) ->
  ord1 ≡ₚ map_to_list oh -> ord2 ≡ₚ map_to_list th ->
  (forall h, tord h ≡ₚ topology_entries tt) ->
  route_sound self oh th (topology_entries tt)
    (routes_topology tord 254 2 (routes_twoHop ord2 (routes_oneHop ord1))).
Proof.
  intros I1 I2 I3 T1 T2 P1 P2 P3.
  apply routes_topology_ind.
  - apply routes_twoHop_ind.
    + intros d e Hd. rewrite (routes_oneHop_spec ord1 oh d I1 P1) in Hd.
      destruct (oh !! d) as [o|] eqn:Ho; [|discriminate].
      destruct (NeighborState_eqb (state o) Unidirectional) eqn:Hs; [discriminate|].
      injection Hd as <-. unfold entry_ok; cbn.
      split; [reflexivity|]. split; [congruence|]. split; [lia|].
      split; [apply elem_of_dom; eauto|].
      split; [intros _; split; [reflexivity|]; exists o; split; [exact Ho|];
              intros E; rewrite E in Hs; discriminate|].
      split; intros; lia.
    + intros rt nb s d Hin Hd Hn Hq. apply route_sound_insert; [exact Hq|exact Hn|].
      rewrite P2, elem_of_map_to_list in Hin.
      unfold entry_ok; cbn. split; [reflexivity|].
      split; [intros ->; exact (T1 _ _ Hin Hd)|].
      split; [lia|]. split; [apply I3, elem_of_dom; eauto|].
      split; [intros; lia|]. split; [eauto|intros; lia].
  - intros h' rt te rE Hh Hte Hn HO Hd Hq. apply route_sound_insert; [exact Hq|exact Hn|].
    change (Z.of_nat 254) with 254 in Hh.
    rewrite P3 in Hte. destruct (Hq _ _ HO) as (_ & _ & _ & Hnh & _).
    unfold entry_ok; cbn. split; [reflexivity|]. split; [exact (T2 _ Hte)|].
    split; [lia|]. split; [exact Hnh|]. split; [intros; lia|]. split; [intros; lia|].
    intros _. exists (originator te), rE, te.
    split; [exact HO|]. split; [lia|]. split; [reflexivity|]. split; [exact Hte|]. split; reflexivity.
Qed.

Lemma routes_complete_gen oh th ord1 ord2 tord :
  (forall k e, oh !! k = Some e -> neighborID e = k) ->
  ord1 ≡ₚ map_to_list oh -> ord2 ≡ₚ map_to_list th ->
  let rt := routes_topology tord 254 2 (routes_twoHop ord2 (routes_oneHop ord1)) in
  (forall k o, oh !! k = Some o -> state o <> Unidirectional ->
     rt !! k = Some (mkRoutingEntry k k 1)) /\
  (forall nb s d, th !! nb = Some s -> d ∈ s -> exists e, rt !! d = Some e /\ distance e <= 2).
Proof.
  intros I1 P1 P2 rt.
  set (rt1 := routes_oneHop ord1). set (rt2 := routes_twoHop ord2 rt1).
  assert (M2 : rt1 ⊆ rt2).
  { unfold rt2. apply (routes_twoHop_ind (fun r => rt1 ⊆ r)); [reflexivity|].
    intros rt' ???? _ Hn Hq. cbv beta in *. etrans; [exact Hq|apply insert_subseteq, Hn]. }
  assert (M3 : rt2 ⊆ rt).
  { unfold rt. apply (routes_topology_ind (fun r => rt2 ⊆ r)); [reflexivity|].
    intros ? rt' ???? Hn _ _ Hq. cbv beta in *. etrans; [exact Hq|apply insert_subseteq, Hn]. }
  assert (D2 : forall d e, rt2 !! d = Some e -> distance e <= 2).
  { unfold rt2. apply (routes_twoHop_ind (fun r => forall d e, r !! d = Some e -> distance e <= 2)).
    - intros d e Hd. unfold rt1 in Hd. rewrite (routes_oneHop_spec ord1 oh d I1 P1) in Hd.
      destruct (oh !! d); [|discriminate]. destruct (NeighborState_eqb _ _); [discriminate|].
      injection Hd as <-. cbn. lia.
    - intros rt' nb s d _ _ _ Hq d' e'. rewrite lookup_insert. case_decide.
      + intros H'; injection H' as <-. cbn. lia.
      + apply Hq. }
  split.
  - intros k o Ho Hs. eapply lookup_weaken; [|exact M3]. eapply lookup_weaken; [|exact M2].
    unfold rt1. rewrite (routes_oneHop_spec ord1 oh k I1 P1), Ho.
    destruct (state o); [reflexivity|done|reflexivity].
  - intros nb s d Hnb Hd.
    assert (Hin : (nb, s) ∈ ord2) by (rewrite P2, elem_of_map_to_list; exact Hnb).
    destruct (routes_twoHop_covers ord2 rt1 nb s d Hin Hd) as [e He]. fold rt2 in He.
    exists e. split; [eapply lookup_weaken; [exact He|exact M3]|exact (D2 _ _ He)].
Qed.

(** ** A second invariant of reachable node states *)

Lemma tables_inv_frame n n' : same_tables n n' -> tables_inv n -> tables_inv n'.
Proof.
  intros (E1 & E2 & E3 & E4). unfold tables_inv. rewrite E1, E2, E3, E4. done.
Qed.

Lemma elem_of_topology_entries tt te :
  te ∈ topology_entries tt <-> exists O dsts d, tt !! O = Some dsts /\ dsts !! d = Some te.
Proof.
  unfold topology_entries. rewrite list_elem_of_In, in_concat. split.
  - intros (l & Hl & Hte). apply in_map_iff in Hl as ([O dsts] & <- & HO).
    apply in_map_iff in Hte as ([d te'] & E & Hd). cbn in E. subst te'.
    apply list_elem_of_In, elem_of_map_to_list in HO, Hd. eauto.
  - intros (O & dsts & d & HO & Hd). exists (map snd (map_to_list dsts)). split.
    + apply in_map_iff. exists (O, dsts). split; [reflexivity|].
      apply list_elem_of_In, elem_of_map_to_list, HO.
    + apply in_map_iff. exists (d, te). split; [reflexivity|].
      apply list_elem_of_In, elem_of_map_to_list, Hd.
Qed.

Lemma same_tables_log_input n m : same_tables n (log_input n m).
Proof. unfold same_tables; cbn; repeat split. Qed.

Lemma same_tables_sendData n m : same_tables n (sendData n m).1.
Proof. unfold same_tables, sendData. frame_tac. Qed.

Lemma same_tables_handleData n m : same_tables n (handleData n m).
Proof.
  unfold handleData. destruct (Nat.eqb _ _); [unfold same_tables; cbn; repeat split|].
  apply same_tables_sendData.
Qed.

Lemma same_tables_originate n : same_tables n (originate n).
Proof.
  unfold originate.
  pose proof (same_tables_sendData n (mkData (n_id n) (n_dst (nodeMsg n)) 0 0 (msg (nodeMsg n)))) as H.
  destruct (sendData _ _) as [n' ok]. destruct H as (E1 & E2 & E3 & E4).
  destruct ok; unfold same_tables; cbn; auto.
Qed.

Lemma tables_inv_handleTC n m : tables_inv n -> tables_inv (handleTC n m).
Proof.
  intros Ht. unfold handleTC. destruct (Nat.eqb _ _); [exact Ht|].
  set (n1 := set_routesChanged _ true).
  assert (H1 : tables_inv n1).
  { destruct Ht as (T1 & T2 & T3). unfold tables_inv, n1; cbn.
    split; [exact T1|]. split; [|exact T3].
    intros te. unfold updateTopologyTable. destruct (tc_stale _ _); [apply T2|].
    rewrite elem_of_topology_entries. intros (O & dsts & d & HO & Hd).
    rewrite lookup_insert in HO. case_decide.
    - injection HO as <-. rewrite tc_entries_lookup in Hd. case_bool_decide as Hb; [|discriminate].
      injection Hd as <-. cbn. apply Hb.
    - apply T2, elem_of_topology_entries. eauto. }
  destruct (tc_doFwd n1 m); [|exact H1].
  eapply tables_inv_frame; [|exact H1]. unfold same_tables; cbn; repeat split.
Qed.

Lemma tables_inv_handleHello_ord ord n m n' :
  tables_inv n -> handleHello_ord ord n m = Some n' -> tables_inv n'.
Proof.
  intros Ht. unfold handleHello_ord.
  assert (Hu : forall n0, same_tables n n0 -> handleHello_update ord n0 m = Some n' -> tables_inv n').
  { intros n0 Hs. unfold handleHello_update. destruct (calculateMPRs_ord _ _ _); [|discriminate].
    intros H; injection H as <-. apply (tables_inv_frame n n0 Hs) in Ht.
    destruct Ht as (T1 & T2 & T3). unfold tables_inv; cbn.
    split; [|split; assumption]. intros k s. unfold hello_twoHop, updateTwoHopNeighbors.
    rewrite lookup_insert. case_decide.
    - intros Hk; injection Hk as <-. rewrite elem_of_list_to_set, list_elem_of_filter. tauto.
    - apply T1. }
  destruct (helloSequences n !! h_src m).
  - destruct (h_seq m <=? _).
    + intros H; injection H as <-; exact Ht.
    + apply Hu. unfold same_tables; cbn; repeat split.
  - apply Hu. unfold same_tables; cbn; repeat split.
Qed.

Lemma tables_inv_expire n : tables_inv n -> tables_inv (expire n).
Proof.
  intros (T1 & T2 & T3). unfold tables_inv, expire; cbn.
  split; [|split; [|exact T3]].
  - intros k s. rewrite map_lookup_filter_Some. intros [Hk _]. eauto.
  - intros te. rewrite elem_of_topology_entries. intros (O & dsts & d & HO & Hd).
    apply lookup_fmap_Some in HO as (dsts0 & <- & HO).
    apply map_lookup_filter_Some in Hd as [Hd _].
    apply T2, elem_of_topology_entries. eauto.
Qed.

Lemma tables_inv_step n n' : node_inv n -> tables_inv n -> step n n' -> tables_inv n'.
Proof.
  intros Hi Ht. destruct 1.
  - eapply tables_inv_handleHello_ord; [|exact H1].
    eapply tables_inv_frame; [apply same_tables_log_input|exact Ht].
  - apply tables_inv_handleTC. eapply tables_inv_frame; [apply same_tables_log_input|exact Ht].
  - eapply tables_inv_frame; [apply same_tables_handleData|].
    eapply tables_inv_frame; [apply same_tables_log_input|exact Ht].
  - eapply tables_inv_frame; [|exact Ht]. unfold same_tables; cbn; repeat split.
  - eapply tables_inv_frame; [|exact Ht]. unfold same_tables; cbn; repeat split.
  - eapply tables_inv_frame; [apply same_tables_originate|exact Ht].
  - apply tables_inv_expire, Ht.
  - destruct Hi as (I1 & I2 & I3 & _). destruct Ht as (T1 & T2 & T3).
    unfold tables_inv; cbn. split; [exact T1|]. split; [exact T2|].
    match goal with |- ?r !! _ = None => destruct (r !! n_id n) as [e|] eqn:E; [|reflexivity] end.
    exfalso. destruct (routes_sound_gen (n_id n) _ _ _ ord1 ord2 tord I1 I2 I3 T1 T2 H0 H1 H2 _ _ E)
      as (_ & Hne & _). apply Hne. reflexivity.
  - eapply tables_inv_frame; [|exact Ht]. unfold same_tables; cbn; repeat split.
Qed.

Lemma tables_inv_reachable self nm n : reachable self nm n -> tables_inv n.
Proof.
  induction 1 as [|n n' Hr IH Hs].
  - unfold tables_inv; cbn. split; [intros k s; rewrite lookup_empty; discriminate|].
    split; [|apply lookup_empty].
    intros te. rewrite elem_of_topology_entries. intros (O & dsts & d & HO & _).
    rewrite lookup_empty in HO. discriminate.
  - apply (tables_inv_step n); [exact (proj2 (reachable_inv _ _ _ Hr))|exact IH|exact Hs].
Qed.

(** ** The routing table of a reachable node *)

(** In every reachable state of node [self], no two-hop set contains [self],
    no topology entry has [self] as its destination, and the routing table
    has no entry for [self]. *)
Theorem reachable_no_self_entries self nm n :
  reachable self nm n ->
  (forall k s, twoHopNeighbors n !! k = Some s -> self ∉ s) /\
  (forall te, te ∈ topology_entries (topologyTable n) -> t_dst te <> self) /\
  routingTable n !! self = None.
Proof.
  intros Hr. destruct (reachable_inv _ _ _ Hr) as [Hid _]. subst self.
  exact (tables_inv_reachable _ _ _ Hr).
Qed.

(** A rebuild of the routing table by a reachable node, whatever the
    iteration orders of its maps, gives only entries that rest on its tables:
    distance 1 to a non-unidirectional one-hop neighbor through itself,
    distance 2 to a member of the two-hop set of the next hop, and distance
    [h+1] to the destination of a topology entry whose originator has a
    route of distance [h] through the same next hop; every next hop is a
    one-hop neighbor, no entry is for [self], distances lie in [1..256]. *)
Theorem calculateRoutingTable_sound self nm n ord1 ord2 tord :
  reachable self nm n ->
  ord1 ≡ₚ map_to_list (oneHopNeighbors n) ->
  ord2 ≡ₚ map_to_list (twoHopNeighbors n) ->
  (forall h, tord h ≡ₚ topology_entries (topologyTable n)) ->
  route_sound self (oneHopNeighbors n) (twoHopNeighbors n) (topology_entries (topologyTable n))
    (routingTable (calculateRoutingTable_ord ord1 ord2 tord n)).
Proof.
  intros Hr P1 P2 P3. destruct (reachable_inv _ _ _ Hr) as [Hid (I1 & I2 & I3 & _)].
  destruct (tables_inv_reachable _ _ _ Hr) as (T1 & T2 & _). subst self.
  exact (routes_sound_gen _ _ _ _ ord1 ord2 tord I1 I2 I3 T1 T2 P1 P2 P3).
Qed.

Lemma calculateRoutingTable_sound_witness :
  reachable 0 demo_nm demo_n1 /\
  map_to_list (oneHopNeighbors demo_n1) ≡ₚ map_to_list (oneHopNeighbors demo_n1) /\
  map_to_list (twoHopNeighbors demo_n1) ≡ₚ map_to_list (twoHopNeighbors demo_n1) /\
  (forall h : Z, topology_entries (topologyTable demo_n1) ≡ₚ topology_entries (topologyTable demo_n1)) /\
  route_sound 0 (oneHopNeighbors demo_n1) (twoHopNeighbors demo_n1)
    (topology_entries (topologyTable demo_n1))
    (routingTable (calculateRoutingTable_ord (map_to_list (oneHopNeighbors demo_n1))
       (map_to_list (twoHopNeighbors demo_n1)) (fun _ => topology_entries (topologyTable demo_n1))
       demo_n1)).
Proof.
  split; [exact demo_n1_reachable|]. split; [reflexivity|]. split; [reflexivity|].
  split; [intros _; reflexivity|].
  exact (calculateRoutingTable_sound 0 demo_nm demo_n1 _ _ (fun _ => topology_entries (topologyTable demo_n1))
           demo_n1_reachable (reflexivity _) (reflexivity _) (fun _ => reflexivity _)).
Defined.

(** A rebuild by a reachable node, whatever the iteration orders, routes every
    bidirectional or MPR one-hop neighbor [k] directly ([k], next hop [k],
    distance 1) and every member of a two-hop set at distance at most 2. *)
Theorem calculateRoutingTable_complete self nm n ord1 ord2 tord :
  reachable self nm n ->
  ord1 ≡ₚ map_to_list (oneHopNeighbors n) ->
  ord2 ≡ₚ map_to_list (twoHopNeighbors n) ->
  let rt := routingTable (calculateRoutingTable_ord ord1 ord2 tord n) in
  (forall k o, oneHopNeighbors n !! k = Some o -> state o <> Unidirectional ->
     rt !! k = Some (mkRoutingEntry k k 1)) /\
  (forall nb s d, twoHopNeighbors n !! nb = Some s -> d ∈ s ->
     exists e, rt !! d = Some e /\ distance e <= 2).
Proof.
  intros Hr P1 P2. destruct (reachable_inv _ _ _ Hr) as [_ (I1 & _)].
  exact (routes_complete_gen _ _ ord1 ord2 tord I1 P1 P2).
Qed.

Lemma calculateRoutingTable_complete_witness :
  reachable 0 demo8_nm demo8_n /\
  map_to_list (oneHopNeighbors demo8_n) ≡ₚ map_to_list (oneHopNeighbors demo8_n) /\
  map_to_list (twoHopNeighbors demo8_n) ≡ₚ map_to_list (twoHopNeighbors demo8_n) /\
  let rt := routingTable (calculateRoutingTable_ord (map_to_list (oneHopNeighbors demo8_n))
              (map_to_list (twoHopNeighbors demo8_n))
              (fun _ => topology_entries (topologyTable demo8_n)) demo8_n) in
  (forall k o, oneHopNeighbors demo8_n !! k = Some o -> state o <> Unidirectional ->
     rt !! k = Some (mkRoutingEntry k k 1)) /\
  (forall nb s d, twoHopNeighbors demo8_n !! nb = Some s -> d ∈ s ->
     exists e, rt !! d = Some e /\ distance e <= 2).
Proof.
  split; [exact demo8_n_reachable|]. split; [reflexivity|]. split; [reflexivity|].
  exact (calculateRoutingTable_complete 0 demo8_nm demo8_n _ _ _
           demo8_n_reachable (reflexivity _) (reflexivity _)).
Defined.

Lemma reachable_no_self_entries_witness :
  reachable 0 demo_nm demo_n2 /\
  (forall k s, twoHopNeighbors demo_n2 !! k = Some s -> 0%nat ∉ s) /\
  (forall te, te ∈ topology_entries (topologyTable demo_n2) -> t_dst te <> 0%nat) /\
  routingTable demo_n2 !! 0%nat = None.
Proof.
  split; [exact demo_n2_reachable|].
  exact (reachable_no_self_entries 0 demo_nm demo_n2 demo_n2_reachable).
Defined.

(** ** TC origination and HELLO reception *)

Lemma insert_stable_hd (y x : nat) (l : list nat) :
  HdRel le y l -> (y <= x)%nat -> HdRel le y (insert_stable Nat.ltb x l).
Proof.
  intros Hh Hyx. destruct l as [|z l]; cbn [insert_stable]; [constructor; exact Hyx|].
  destruct (Nat.ltb z x); constructor; [inversion Hh; assumption|exact Hyx].
Qed.

Lemma insert_stable_sorted (x : nat) (l : list nat) :
  Sorted le l -> Sorted le (insert_stable Nat.ltb x l).
Proof.
  induction l as [|y l IH]; intros Hs; cbn [insert_stable]; [repeat constructor|].
  apply Sorted_inv in Hs as [Hs Hh].
  destruct (Nat.ltb_spec y x) as [Hlt|Hge].
  - constructor; [apply IH, Hs|]. apply insert_stable_hd; [exact Hh|lia].
  - constructor; [constructor; assumption|]. constructor. exact Hge.
Qed.

Lemma sort_stable_sorted (l : list nat) : Sorted le (sort_stable Nat.ltb l).
Proof.
  induction l as [|x l IH]; cbn; [constructor|]. apply insert_stable_sorted, IH.
Qed.

Lemma sorted_nodup_lt (l : list nat) : Sorted le l -> NoDup l -> Sorted lt l.
Proof.
  induction l as [|x l IH]; intros Hs Hn; [constructor|].
  apply Sorted_inv in Hs as [Hs Hh]. apply NoDup_cons in Hn as [Hx Hn].
  constructor; [apply IH; assumption|].
  destruct l as [|y l]; constructor. inversion Hh as [|? ? Hle]; subst.
  assert (x <> y) by (intros ->; apply Hx; left). lia.
Qed.

Lemma msSet_values (ms : gmap NodeID NodeID) :
  (forall k v, ms !! k = Some v -> v = k) ->
  map snd (map_to_list ms) = (map_to_list ms).*1.
Proof.
  intros Hv.
  assert (Hl : forall kv, kv ∈ map_to_list ms -> kv.2 = kv.1).
  { intros [k v] Hkv. apply elem_of_map_to_list in Hkv. exact (Hv _ _ Hkv). }
  induction (map_to_list ms) as [|kv l IH]; [reflexivity|]. cbn.
  rewrite (Hl kv) by (left; reflexivity). f_equal.
  apply IH. intros kv' Hkv'. apply Hl. right. exact Hkv'.
Qed.

(** The TC a reachable node [self] sends: source and [fromnbr] are [self],
    the sequence number is [tcSequenceNum], which is then incremented, and
    the MS list is strictly increasing and holds exactly the keys of
    [msSet]; the message is appended to [output] and to the output log. *)
Theorem sendTC_message self nm n :
  reachable self nm n ->
  exists ids,
    output (sendTC n) = output n ++ [MTC (mkTC self self (tcSequenceNum n) ids)] /\
    outputLog (sendTC n) = outputLog n ++ [MTC (mkTC self self (tcSequenceNum n) ids)] /\
    tcSequenceNum (sendTC n) = add64 (tcSequenceNum n) 1 /\
    Sorted lt ids /\ (forall x, x ∈ ids <-> x ∈ dom (msSet n)).
Proof.
  intros Hr. destruct (reachable_inv _ _ _ Hr) as [<- (_ & _ & _ & I4)].
  exists (sort_stable Nat.ltb (map snd (map_to_list (msSet n)))).
  split; [reflexivity|]. split; [reflexivity|]. split; [reflexivity|].
  rewrite (msSet_values _ I4). split.
  - apply sorted_nodup_lt; [apply sort_stable_sorted|].
    rewrite sort_stable_perm. apply NoDup_fst_map_to_list.
  - intros x. rewrite sort_stable_perm, elem_of_dom. split.
    + intros Hx. apply list_elem_of_fmap in Hx as ([k v] & -> & Hkv).
      apply elem_of_map_to_list in Hkv. cbn. eauto.
    + intros [v Hv]. apply list_elem_of_fmap. exists (x, v). split; [reflexivity|].
      apply elem_of_map_to_list, Hv.
Qed.

Lemma sendTC_message_witness :
  reachable 0 demo8_nm demo8_n /\
  exists ids,
    output (sendTC demo8_n) = output demo8_n ++ [MTC (mkTC 0 0 (tcSequenceNum demo8_n) ids)] /\
    outputLog (sendTC demo8_n) = outputLog demo8_n ++ [MTC (mkTC 0 0 (tcSequenceNum demo8_n) ids)] /\
    tcSequenceNum (sendTC demo8_n) = add64 (tcSequenceNum demo8_n) 1 /\
    Sorted lt ids /\ (forall x, x ∈ ids <-> x ∈ dom (msSet demo8_n)).
Proof.
  split; [exact demo8_n_reachable|].
  exact (sendTC_message 0 demo8_nm demo8_n demo8_n_reachable).
Defined.

Lemma handleHello_ord_new ord n m :
  match helloSequences n !! h_src m with Some s => s < h_seq m | None => True end ->
  handleHello_ord ord n m =
    handleHello_update ord (set_helloSequences n (<[h_src m := h_seq m]> (helloSequences n))) m.
Proof.
  unfold handleHello_ord. destruct (helloSequences n !! h_src m) as [s|]; [|reflexivity].
  intros Hs. rewrite (proj2 (Z.leb_gt _ _) Hs). reflexivity.
Qed.

Lemma calculateMPRs_entry ord oh th res k e :
  calculateMPRs_ord ord oh th = Some res -> oh !! k = Some e ->
  exists e', res !! k = Some e' /\ holdUntil e' = holdUntil e /\
    (state e' = Unidirectional <-> state e = Unidirectional).
Proof.
  intros Hc Hk. destruct (calculateMPRs_lookup _ _ _ _ k Hc) as (mprs & rest & nodes & rem & Hcand & Hl & Hr).
  rewrite Hk in Hr. cbn in Hr. exists (mpr_update mprs k e). split; [exact Hr|].
  unfold mpr_update. destruct (decide (k ∈ mprs)) as [Hin|Hnin].
  - cbn. split; [reflexivity|]. split; [discriminate|]. intros Hu. exfalso.
    destruct (mpr_loop_cover _ _ _ _ _ _ Hl) as (_ & Hfrom & _).
    destruct (Hfrom k Hin) as [H0|(c & Hc' & <-)]; [set_solver|].
    unfold sort_by_reaches in Hc'. rewrite sort_stable_perm in Hc'.
    destruct (mpr_candidates_spec _ _ _ _ Hcand) as (_ & _ & Hok).
    apply (Hok c Hc'). rewrite Hk. exact Hu.
  - destruct (state e) eqn:S; cbn; rewrite ?S; split; try reflexivity; split; congruence.
Qed.

Lemma existsb_self (l : list NodeID) (x : NodeID) :
  existsb (fun y => Nat.eqb y x) l = true <-> x ∈ l.
Proof.
  rewrite existsb_exists, list_elem_of_In. split.
  - intros (y & Hy & E). apply Nat.eqb_eq in E. subst y. exact Hy.
  - intros Hx. exists x. split; [exact Hx|apply Nat.eqb_refl].
Qed.

(** When [handleHello] accepts a HELLO (its sequence number is newer than
    the last one recorded for the sender), the sender's one-hop entry is held
    until [currentTick + neighborHoldTime] and is unidirectional exactly when
    the sender was not a one-hop neighbor yet or the HELLO does not list the
    node; the MPR computation leaves that state as it is. *)
Theorem handleHello_sender_entry ord n m n' :
  match helloSequences n !! h_src m with Some s => s < h_seq m | None => True end ->
  handleHello_ord ord n m = Some n' ->
  exists e, oneHopNeighbors n' !! h_src m = Some e /\
    holdUntil e = add64 (currentTick n) (neighborHoldTime n) /\
    (state e = Unidirectional <->
       oneHopNeighbors n !! h_src m = None \/ n_id n ∉ unidir m ++ bidir m ++ mpr m).
Proof.
  intros Hnew. rewrite (handleHello_ord_new _ _ _ Hnew). unfold handleHello_update. cbn.
  set (oh1 := updateOneHopNeighbors m (oneHopNeighbors n)
                (add64 (currentTick n) (neighborHoldTime n)) (n_id n)).
  destruct (calculateMPRs_ord _ oh1 _) as [oh2|] eqn:Hc; [|discriminate].
  intros H. injection H as <-. cbn.
  assert (Hk : oh1 !! h_src m = Some (match oneHopNeighbors n !! h_src m with
            | None => mkOneHop (h_src m) Unidirectional (add64 (currentTick n) (neighborHoldTime n))
            | Some entry =>
                mkOneHop (neighborID entry)
                  (if existsb (fun x => Nat.eqb x (n_id n)) (unidir m ++ (bidir m ++ mpr m))
                   then Bidirectional else Unidirectional) (add64 (currentTick n) (neighborHoldTime n))
            end)).
  { unfold oh1. rewrite updateOneHopNeighbors_lookup, decide_True by reflexivity. reflexivity. }
  destruct (calculateMPRs_entry _ _ _ _ _ _ Hc Hk) as (e' & He' & Hh & Hs).
  exists e'. split; [exact He'|]. rewrite Hh, Hs.
  destruct (oneHopNeighbors n !! h_src m); cbn; [|split; [reflexivity|]; tauto].
  destruct (existsb _ _) eqn:E; cbn.
  - apply existsb_self in E. split; [reflexivity|]. split; [discriminate|].
    intros [H|H]; [discriminate|]. contradiction.
  - split; [reflexivity|]. split; [intros _; right|reflexivity].
    intros Hin. apply existsb_self in Hin. congruence.
Qed.

Lemma handleHello_sender_entry_witness :
  (match helloSequences demo_h0 !! h_src demo_h1 with Some s => s < h_seq demo_h1 | None => True end) /\
  handleHello_ord demo_h_ord demo_h0 demo_h1 = Some demo_h_res /\
  exists e, oneHopNeighbors demo_h_res !! h_src demo_h1 = Some e /\
    holdUntil e = add64 (currentTick demo_h0) (neighborHoldTime demo_h0) /\
    (state e = Unidirectional <->
       oneHopNeighbors demo_h0 !! h_src demo_h1 = None \/
       n_id demo_h0 ∉ unidir demo_h1 ++ bidir demo_h1 ++ mpr demo_h1).
Proof.
  assert (Hn : match helloSequences demo_h0 !! h_src demo_h1 with
               | Some s => s < h_seq demo_h1 | None => True end)
    by (vm_compute; reflexivity).
  assert (Hr : handleHello_ord demo_h_ord demo_h0 demo_h1 = Some demo_h_res)
    by (vm_compute; reflexivity).
  split; [exact Hn|]. split; [exact Hr|].
  exact (handleHello_sender_entry demo_h_ord demo_h0 demo_h1 demo_h_res Hn Hr).
Defined.

(** When [handleHello] accepts a HELLO from [src], afterwards [src] is a key
    of [msSet] exactly when the HELLO lists the node among its MPRs; the other
    keys of [msSet] are untouched. *)
Theorem handleHello_msSet ord n m n' :
  match helloSequences n !! h_src m with Some s => s < h_seq m | None => True end ->
  handleHello_ord ord n m = Some n' ->
  (is_Some (msSet n' !! h_src m) <-> n_id n ∈ mpr m) /\
  (forall k, k <> h_src m -> msSet n' !! k = msSet n !! k).
Proof.
  intros Hnew. rewrite (handleHello_ord_new _ _ _ Hnew). unfold handleHello_update. cbn.
  destruct (calculateMPRs_ord _ _ _) as [oh2|]; [|discriminate].
  intros H. injection H as <-. cbn.
  rewrite <- existsb_self.
  destruct (bool_decide (is_Some (msSet n !! h_src m))) eqn:Ew;
    [apply bool_decide_eq_true in Ew|apply bool_decide_eq_false in Ew];
    destruct (existsb _ (mpr m)); cbn; split.
  - split; [reflexivity|intros _; exact Ew].
  - reflexivity.
  - rewrite lookup_delete_eq. split; [intros [? H]; discriminate|discriminate].
  - intros k Hk. apply lookup_delete_ne. congruence.
  - rewrite lookup_insert_eq. split; [reflexivity|eauto].
  - intros k Hk. apply lookup_insert_ne. congruence.
  - split; [intros H; contradiction|discriminate].
  - reflexivity.
Qed.

Lemma handleHello_msSet_witness :
  (match helloSequences demo_h0 !! h_src demo_h1 with Some s => s < h_seq demo_h1 | None => True end) /\
  handleHello_ord demo_h_ord demo_h0 demo_h1 = Some demo_h_res /\
  (is_Some (msSet demo_h_res !! h_src demo_h1) <-> n_id demo_h0 ∈ mpr demo_h1) /\
  (forall k, k <> h_src demo_h1 -> msSet demo_h_res !! k = msSet demo_h0 !! k).
Proof.
  assert (Hn : match helloSequences demo_h0 !! h_src demo_h1 with
               | Some s => s < h_seq demo_h1 | None => True end)
    by (vm_compute; reflexivity).
  assert (Hr : handleHello_ord demo_h_ord demo_h0 demo_h1 = Some demo_h_res)
    by (vm_compute; reflexivity).
  split; [exact Hn|]. split; [exact Hr|].
  exact (handleHello_msSet demo_h_ord demo_h0 demo_h1 demo_h_res Hn Hr).
Defined.

(** ** Controller deliveries over a parsed topology *)




(** ** Reading the node configuration *)

Lemma digit_Atoi1 (c : Ascii.ascii) (v : Z) :
  digit_val c = Some v -> Atoi (String c EmptyString) = Some v /\ 0 <= v <= 9.
Proof.
  intros Hc. destruct (digit_char_cases _ _ Hc) as [-> Hv]. split; [|exact Hv].
  rewrite Atoi_digit_start by exact Hv. cbn [digits_val]. rewrite Hc.
  unfold int_min, int_max. replace (0 * 10 + v) with v by lia.
  replace ((- 2 ^ 63 <=? v) && (v <=? 2 ^ 63 - 1)) with true; [reflexivity|].
  symmetry. apply andb_true_intro. split; apply Z.leb_le; lia.
Qed.

Lemma digit_Atoi2 (c1 c2 : Ascii.ascii) (v1 v2 : Z) :
  digit_val c1 = Some v1 -> digit_val c2 = Some v2 ->
  Atoi (String c1 (String c2 EmptyString)) = Some (v1 * 10 + v2) /\ 0 <= v1 * 10 + v2 <= 99.
Proof.
  intros H1 H2. destruct (digit_char_cases _ _ H1) as [-> Hv1].
  destruct (digit_char_cases _ _ H2) as [_ Hv2].
  rewrite Atoi_digit_start by exact Hv1. cbn [digits_val]. rewrite H1, H2.
  unfold int_min, int_max. replace ((0 * 10 + v1) * 10 + v2) with (v1 * 10 + v2) by lia.
  replace ((- 2 ^ 63 <=? v1 * 10 + v2) && (v1 * 10 + v2 <=? 2 ^ 63 - 1)) with true; [split; [reflexivity|lia]|].
  symmetry. apply andb_true_intro. split; apply Z.leb_le; lia.
Qed.

Lemma re_digits_Atoi (s p r : string) :
  In (p, r) (re_digits s) -> exists v, Atoi p = Some v /\ 0 <= v <= 99.
Proof.
  destruct s as [|c1 r1]; [intros []|]. unfold re_digits, is_digit.
  destruct (digit_val c1) as [v1|] eqn:D1; [|intros []].
  destruct (digit_Atoi1 _ _ D1) as [A1 B1].
  destruct r1 as [|c2 r2].
  - intros [E|[]]. injection E as <- <-. exists v1. split; [exact A1|lia].
  - destruct (digit_val c2) as [v2|] eqn:D2.
    + intros [E|[E|[]]]; injection E as <- <-.
      * destruct (digit_Atoi2 _ _ _ _ D1 D2) as [A2 B2]. eauto.
      * exists v1. split; [exact A1|lia].
    + intros [E|[]]. injection E as <- <-. exists v1. split; [exact A1|lia].
Qed.

Lemma re_config_at_Atoi (s m1 m2 m3 m4 : string) :
  In (m1, m2, m3, m4) (re_config_at s) ->
  is_Some (Atoi m1) /\ is_Some (Atoi m2) /\ is_Some (Atoi m4).
Proof.
  unfold re_config_at. intros H.
  apply in_flat_map in H as ([d1 r1] & Hd1 & H).
  apply in_flat_map in H as (r1' & _ & H).
  apply in_flat_map in H as ([d2 r2] & Hd2 & H).
  apply in_flat_map in H as (r2' & _ & H).
  apply in_flat_map in H as (r3 & _ & H).
  apply in_flat_map in H as ([b r4] & _ & H). cbn [fst snd] in H.
  unfold re_tail in H.
  apply in_flat_map in H as (r5 & _ & H).
  apply in_flat_map in H as (r6 & _ & H).
  apply in_map_iff in H as ([d4 r7] & E & Hd4). injection E as <- <- _ <-.
  destruct (re_digits_Atoi _ _ _ Hd1) as (v1 & A1 & _).
  destruct (re_digits_Atoi _ _ _ Hd2) as (v2 & A2 & _).
  destruct (re_digits_Atoi _ _ _ Hd4) as (v4 & A4 & _).
  cbn [fst]. rewrite A1, A2, A4. split; [eauto|split; eauto].
Qed.

Lemma FindStringSubmatch_in (s : string) x :
  FindStringSubmatch s = Some x -> exists s', In x (re_config_at s').
Proof.
  induction s as [|c s IH]; cbn [FindStringSubmatch].
  - destruct (re_config_at EmptyString) as [|y l] eqn:E; [discriminate|].
    intros H. injection H as <-. exists EmptyString. rewrite E. left. reflexivity.
  - destruct (re_config_at (String c s)) as [|y l] eqn:E; [exact IH|].
    intros H. injection H as <-. exists (String c s). rewrite E. left. reflexivity.
Qed.

Lemma config_of_line_cases (line : string) :
  match config_of_line line with
  | LOk _ => is_Some (FindStringSubmatch line)
  | LErr _ => False
  | LPanic => FindStringSubmatch line = None
  end.
Proof.
  unfold config_of_line. destruct (FindStringSubmatch line) as [[[[m1 m2] m3] m4]|] eqn:F; [|reflexivity].
  destruct (FindStringSubmatch_in _ _ F) as (s' & Hin).
  destruct (re_config_at_Atoi _ _ _ _ _ Hin) as ([v1 A1] & [v2 A2] & [v4 A4]).
  rewrite A1, A2, A4. eauto.
Qed.

Lemma config_loop_outcome (lines : list string) (acc : list NodeConfig) :
  match config_loop lines acc with
  | CfgOk cs => (length cs = length acc + length lines)%nat /\
                forall l, In l lines -> is_Some (FindStringSubmatch l)
  | CfgErr _ => False
  | CfgPanic => exists l, In l lines /\ FindStringSubmatch l = None
  end.
Proof.
  revert acc. induction lines as [|l lines IH]; intros acc; cbn [config_loop].
  - split; [cbn; lia|intros _ []].
  - pose proof (config_of_line_cases l) as Hl. destruct (config_of_line l) as [c|e|]; [|contradiction|].
    + specialize (IH (acc ++ [c])). destruct (config_loop lines (acc ++ [c])); [|exact IH|].
      * destruct IH as [Hlen Hall]. rewrite length_app in Hlen. cbn in Hlen |- *. split; [lia|].
        intros l' [<-|Hl']; [exact Hl|exact (Hall _ Hl')].
      * destruct IH as (l' & Hin & Hf). exists l'. split; [right; exact Hin|exact Hf].
    + exists l. split; [left; reflexivity|exact Hl].
Qed.

(** [ReadNodeConfiguration] never returns one of its "is not an int" errors:
    the captures of [\d{1,2}] always convert.  It panics exactly when some
    newline-terminated line does not match the pattern, and otherwise returns
    one configuration per such line (an unterminated last line is dropped). *)
Theorem ReadNodeConfiguration_outcome (input : string) :
  match ReadNodeConfiguration input with
  | CfgOk cs => length cs = length (read_lines input).1 /\
                forall l, In l (read_lines input).1 -> is_Some (FindStringSubmatch l)
  | CfgErr _ => False
  | CfgPanic => exists l, In l (read_lines input).1 /\ FindStringSubmatch l = None
  end.
Proof.
  unfold ReadNodeConfiguration. exact (config_loop_outcome (read_lines input).1 []).
Qed.

Lemma heads_flat_map {A B} (f : A -> list B) (l : list A) (a : A) (y : B) :
  heads l a -> heads (f a) y -> heads (flat_map f l) y.
Proof.
  intros [m ->] [m' Hf]. cbn [flat_map]. rewrite Hf. eexists. reflexivity.
Qed.

Lemma heads_map {A B} (f : A -> B) (l : list A) (a : A) :
  heads l a -> heads (map f l) (f a).
Proof. intros [m ->]. eexists. reflexivity. Qed.

Lemma flat_map_map' {A B C} (f : B -> list C) (g : A -> B) (l : list A) :
  flat_map f (map g l) = flat_map (fun x => f (g x)) l.
Proof. induction l as [|x l IH]; cbn; [reflexivity|]. rewrite IH. reflexivity. Qed.

Lemma re_char_hit (c : Ascii.ascii) (r : string) : re_char c (String c r) = [r].
Proof. unfold re_char. rewrite Ascii.eqb_refl. reflexivity. Qed.

Lemma udigits_S (f : nat) (z : Z) (acc : string) :
  udigits (S f) z acc =
    if z <? 10 then String (digit_char z) acc
    else udigits f (z / 10) (String (digit_char (z mod 10)) acc).
Proof. reflexivity. Qed.

Lemma format_int_99 (v : Z) :
  0 <= v <= 99 ->
  format_int v = if v <? 10 then String (digit_char v) EmptyString
                 else String (digit_char (v / 10)) (String (digit_char (v mod 10)) EmptyString).
Proof.
  intros Hv. unfold format_int. rewrite (proj2 (Z.ltb_ge v 0)) by lia.
  rewrite udigits_S. destruct (v <? 10) eqn:E; [reflexivity|].
  rewrite udigits_S. replace (v / 10 <? 10) with true; [reflexivity|].
  symmetry. apply Z.ltb_lt. apply Z.div_lt_upper_bound; lia.
Qed.

Lemma is_digit_char (d : Z) : 0 <= d <= 9 -> is_digit (digit_char d) = true.
Proof. intros Hd. unfold is_digit. rewrite (proj1 (digit_char_spec d Hd)). reflexivity. Qed.

Lemma digit_char_newline (d : Z) : 0 <= d <= 9 -> Ascii.eqb (digit_char d) "010"%char = false.
Proof.
  intros Hd. assert (d = 0 \/ d = 1 \/ d = 2 \/ d = 3 \/ d = 4 \/ d = 5 \/ d = 6 \/
                     d = 7 \/ d = 8 \/ d = 9) as Hc by lia.
  repeat destruct Hc as [->|Hc]; try subst d; reflexivity.
Qed.

Lemma re_digits_format (v : Z) (t : string) :
  0 <= v <= 99 ->
  match t with EmptyString => True | String c _ => is_digit c = false end ->
  heads (re_digits (String.append (format_int v) t)) (format_int v, t).
Proof.
  intros Hv Ht. rewrite format_int_99 by exact Hv. destruct (v <? 10) eqn:E.
  - apply Z.ltb_lt in E.
    change (String.append (String (digit_char v) EmptyString) t) with (String (digit_char v) t).
    unfold re_digits. rewrite is_digit_char by lia.
    destruct t as [|c r]; [eexists; reflexivity|]. rewrite Ht. eexists. reflexivity.
  - apply Z.ltb_ge in E.
    change (String.append (String (digit_char (v / 10)) (String (digit_char (v mod 10)) EmptyString)) t)
      with (String (digit_char (v / 10)) (String (digit_char (v mod 10)) t)).
    unfold re_digits. rewrite !is_digit_char.
    + eexists. reflexivity.
    + split; [apply Z.mod_pos_bound; lia|]. pose proof (Z.mod_pos_bound v 10). lia.
    + split; [apply Z.div_pos; lia|].
      assert (v / 10 < 10) by (apply Z.div_lt_upper_bound; lia). lia.
Qed.

Lemma re_lazy_any_heads {X} (msg tail : string) (F : string -> string -> list X) (y : X) :
  no_quote msg = true -> no_newline msg = true ->
  (forall p q, match q with String c _ => Ascii.eqb c quote_char = false | EmptyString => True end ->
     F p q = []) ->
  heads (F msg (String quote_char tail)) y ->
  heads (flat_map (fun br => F br.1 br.2) (re_lazy_any (String.append msg (String quote_char tail)))) y.
Proof.
  revert F. induction msg as [|c m IH]; intros F Hq Hn HF Hy.
  - change (String.append EmptyString (String quote_char tail)) with (String quote_char tail).
    cbn [re_lazy_any flat_map fst snd]. destruct Hy as [m' Hy]. rewrite Hy. eexists. reflexivity.
  - cbn [no_quote no_newline] in Hq, Hn.
    apply andb_prop in Hq as [Hc Hq]. apply andb_prop in Hn as [Hc' Hn].
    apply negb_true_iff in Hc, Hc'.
    change (String.append (String c m) (String quote_char tail))
      with (String c (String.append m (String quote_char tail))).
    cbn [re_lazy_any flat_map fst snd]. rewrite Hc', HF by exact Hc. cbn [app].
    rewrite flat_map_map'. cbn [fst snd].
    apply (IH (fun p q => F (String c p) q)); [exact Hq|exact Hn| |exact Hy].
    intros p q Hq'. apply HF, Hq'.
Qed.

Lemma FindStringSubmatch_heads (s : string) y :
  heads (re_config_at s) y -> FindStringSubmatch s = Some y.
Proof. intros [m E]. destruct s; cbn [FindStringSubmatch]; rewrite E; reflexivity. Qed.

Lemma substring_prefix (m t : string) : substring 0 (String.length m) (String.append m t) = m.
Proof.
  induction m as [|c m IH]; [destruct t; reflexivity|].
  change (String c (substring 0 (String.length m) (String.append m t)) = String c m). rewrite IH. reflexivity.
Qed.

Lemma length_append_quote (m : string) :
  String.length (String.append m (String quote_char EmptyString)) = S (String.length m).
Proof.
  induction m as [|c m IH]; [reflexivity|].
  change (S (String.length (String.append m (String quote_char EmptyString))) = S (S (String.length m))).
  rewrite IH. reflexivity.
Qed.

Lemma config_of_line_config_line_gen (c : NodeConfig) :
  config_ok c -> config_of_line (config_line c) = LOk c.
Proof.
  destruct c as [id [m dly dst snt]]. unfold config_ok; cbn [cfg_id cfg_msg msg delay n_dst sent].
  intros (Hid & Hdst & Hdly & Hq & Hn & ->).
  assert (Hfind : FindStringSubmatch (config_line (mkNodeConfig id (mkNodeMsg m dly dst false))) =
    Some (NodeID_String id, NodeID_String dst,
          String quote_char (String.append m (String quote_char EmptyString)), format_int dly)).
  { apply FindStringSubmatch_heads. unfold config_line, re_config_at, NodeID_String.
    cbn [cfg_id cfg_msg msg delay n_dst sent].
    eapply heads_flat_map; [apply re_digits_format; [lia|reflexivity]|]. cbn [fst snd].
    eapply heads_flat_map; [rewrite re_char_hit; eexists; reflexivity|].
    eapply heads_flat_map; [apply re_digits_format; [lia|reflexivity]|]. cbn [fst snd].
    eapply heads_flat_map; [rewrite re_char_hit; eexists; reflexivity|].
    eapply heads_flat_map; [rewrite re_char_hit; eexists; reflexivity|].
    apply (re_lazy_any_heads m _ (fun b r => re_tail (format_int (Z.of_nat id)) (format_int (Z.of_nat dst)) b r));
      [exact Hq|exact Hn| |].
    - intros p q Hq'. unfold re_tail. destruct q as [|c' q]; [reflexivity|].
      unfold re_char. rewrite Hq'. reflexivity.
    - unfold re_tail. rewrite re_char_hit. cbn [flat_map]. rewrite re_char_hit. cbn [flat_map].
      rewrite app_nil_r, app_nil_r.
      assert (E : format_int dly = String.append (format_int dly) EmptyString).
      { induction (format_int dly) as [|ch r IH]; [reflexivity|].
        change (String ch r = String ch (String.append r EmptyString)). rewrite <- IH. reflexivity. }
      rewrite E at 1. refine (heads_map _ _ (format_int dly, EmptyString) _). apply re_digits_format; [lia|exact I]. }
  unfold config_of_line. rewrite Hfind. unfold NodeID_String.
  rewrite !Atoi_format_int_gen by (unfold int_min, int_max; lia).
  cbn [String.length]. rewrite length_append_quote.
  replace (S (S (String.length m)) - 2)%nat with (String.length m) by lia.
  cbn [substring]. rewrite substring_prefix, !Nat2Z.id. reflexivity.
Qed.

Lemma no_newline_append (a b : string) :
  no_newline (String.append a b) = no_newline a && no_newline b.
Proof.
  induction a as [|c a IH]; [reflexivity|].
  change (negb (Ascii.eqb c "010"%char) && no_newline (String.append a b) =
          (negb (Ascii.eqb c "010"%char) && no_newline a) && no_newline b).
  rewrite IH, andb_assoc. reflexivity.
Qed.

Lemma no_newline_format_99 (v : Z) : 0 <= v <= 99 -> no_newline (format_int v) = true.
Proof.
  intros Hv. rewrite format_int_99 by exact Hv. destruct (v <? 10) eqn:E.
  - apply Z.ltb_lt in E. cbn [no_newline]. rewrite digit_char_newline by lia. reflexivity.
  - apply Z.ltb_ge in E. cbn [no_newline]. rewrite !digit_char_newline; [reflexivity| |].
    + pose proof (Z.mod_pos_bound v 10). lia.
    + split; [apply Z.div_pos; lia|].
      assert (v / 10 < 10) by (apply Z.div_lt_upper_bound; lia). lia.
Qed.

Lemma no_newline_config_line (c : NodeConfig) : config_ok c -> no_newline (config_line c) = true.
Proof.
  intros (Hid & Hdst & Hdly & Hq & Hn & Hs). unfold config_line, NodeID_String.
  rewrite no_newline_append, no_newline_format_99 by lia. cbn [no_newline andb].
  rewrite no_newline_append, no_newline_format_99 by lia. cbn [no_newline andb].
  rewrite no_newline_append, Hn. cbn [no_newline andb].
  apply no_newline_format_99. exact Hdly.
Qed.

Lemma read_lines_line (l s : string) :
  no_newline l = true ->
  read_lines (String.append l (String "010"%char s)) = (l :: (read_lines s).1, (read_lines s).2).
Proof.
  induction l as [|c l IH]; intros Hl.
  - change (read_lines (String "010"%char s) = ([EmptyString] ++ (read_lines s).1, (read_lines s).2)).
    cbn [read_lines]. destruct (read_lines s). reflexivity.
  - cbn [no_newline] in Hl. apply andb_prop in Hl as [Hc Hl]. apply negb_true_iff in Hc.
    change (String.append (String c l) (String "010"%char s))
      with (String c (String.append l (String "010"%char s))).
    cbn [read_lines]. rewrite (IH Hl), Hc. reflexivity.
Qed.

Lemma read_lines_join (ls : list string) :
  Forall (fun l => no_newline l = true) ls -> read_lines (join_lines ls) = (ls, EmptyString).
Proof.
  induction 1 as [|l ls Hl _ IH]; [reflexivity|].
  cbn [join_lines]. rewrite read_lines_line by exact Hl. rewrite IH. reflexivity.
Qed.

Lemma config_loop_ok (cs acc : list NodeConfig) :
  Forall config_ok cs -> config_loop (map config_line cs) acc = CfgOk (acc ++ cs).
Proof.
  intros H. revert acc. induction H as [|c cs Hc _ IH]; intros acc.
  - rewrite app_nil_r. reflexivity.
  - cbn [map config_loop]. rewrite config_of_line_config_line_gen by exact Hc.
    rewrite IH, <- app_assoc. reflexivity.
Qed.

(** Extra: [ReadNodeConfiguration] reads back a file written one
    [{id} {dst} "{msg}" {delay}] line per configuration, when ids and delay have at
    most two digits and the message holds no double quote and no newline: the
    configurations come out unchanged and in order. *)
Theorem ReadNodeConfiguration_config_file (cs : list NodeConfig) :
  Forall config_ok cs -> ReadNodeConfiguration (config_file cs) = CfgOk cs.
Proof.
  intros H. unfold ReadNodeConfiguration, config_file.
  rewrite read_lines_join.
  - exact (config_loop_ok cs [] H).
  - apply Forall_map. induction H; constructor; auto using no_newline_config_line.
Qed.

Lemma ReadNodeConfiguration_config_file_witness :
  Forall config_ok demo_configs /\ ReadNodeConfiguration (config_file demo_configs) = CfgOk demo_configs.
Proof.
  assert (H : Forall config_ok demo_configs).
  { repeat constructor; cbn; try lia; reflexivity. }
  split; [exact H | apply (ReadNodeConfiguration_config_file demo_configs H)].
Defined.
